(** * table2md: the MarkdownTable class of [table2md/__init__.py]

    A shallow embedding of the class [MarkdownTable] (its validator, its
    renderer, its print helper and its four builders) together with the
    properties of the table2md specification that were checked against it.

    Conventions of the embedding:
    - a Python [str] is a Rocq [string]; [len] is [String.length], so one
      character of the model is one code point of the Python string;
    - a Python [int] that counts cells or rows is a [nat];
    - a raised exception is the [Raise] case of [result];
    - the contents of [self.data] are a [list (list string)]; the list
      objects themselves, where identity matters, live in a [heap]. *)

From Stdlib Require Import Ascii Arith Lia Bool.
From stdpp Require Import base tactics option list sorting strings pretty.

(** ** Exceptions and the error monad *)

(** The exceptions the module can raise.  [NoData] and [MisalignedRows] are
    the two subclasses of [InvalidData] (lines 54-66) and carry their
    message; the others are builtin exceptions: [KeyError] carries the
    missing key, [IndexError] comes from [list[i]], [ValueError] from
    [max] of an empty sequence. *)
Inductive exn : Type :=
| NoData (msg : string)
| MisalignedRows (msg : string)
| KeyError (key : string)
| IndexError
| ValueError.

(** [isinstance(e, InvalidData)]. *)
Definition is_InvalidData (e : exn) : bool :=
  match e with
  | NoData _ | MisalignedRows _ => true
  | _ => false
  end.

Inductive result (A : Type) : Type :=
| Ok (a : A)
| Raise (e : exn).
Arguments Ok {A} a.
Arguments Raise {A} e.

#[global] Instance result_ret : MRet result := fun _ a => Ok a.
#[global] Instance result_bind : MBind result := fun _ _ f m =>
  match m with
  | Ok a => f a
  | Raise e => Raise e
  end.

(** [for x in l: ys.append(f(x))], stopping at the first exception. *)
Fixpoint traverse {A B : Type} (f : A -> result B) (l : list A) : result (list B) :=
  match l with
  | [] => Ok []
  | x :: l' => y ← f x; ys ← traverse f l'; Ok (y :: ys)
  end.

(** ** Python builtins used by the module *)

(** [l[i]] for a non-negative index. *)
Definition getitem {A : Type} (l : list A) (i : nat) : result A :=
  match l !! i with
  | Some x => Ok x
  | None => Raise IndexError
  end.

(** [not l]: an empty list is falsy. *)
Definition is_empty {A : Type} (l : list A) : bool :=
  match l with
  | [] => true
  | _ :: _ => false
  end.

(** [enumerate(l, start)]. *)
Fixpoint enumerate {A : Type} (start : nat) (l : list A) : list (nat * A) :=
  match l with
  | [] => []
  | x :: l' => (start, x) :: enumerate (S start) l'
  end.

(** [sep.join(l)]. *)
Definition join (sep : string) (l : list string) : string := String.concat sep l.

(** [s * n]. *)
Fixpoint str_mul (s : string) (n : nat) : string :=
  match n with
  | 0 => ""
  | S n' => s +:+ str_mul s n'
  end.

(** [str(n)] for a non-negative [int]. *)
Definition str_int (n : nat) : string := pretty n.

(** ** The validator (lines 111-127) *)

(** The list comprehension of lines 123-124. *)
Definition invalid_rows {A : Type} (header_len : nat) (data : list (list A)) : list nat :=
  map fst (List.filter (fun '(_, row) => negb (length row =? header_len))
                       (enumerate 1 (drop 1 data))).

(** The f-string of lines 126-127. *)
Definition misaligned_message (header_len : nat) (rows : list nat) : string :=
  "expected " +:+ str_int header_len +:+ " cells, violated by rows "
  +:+ join ", " (map str_int rows).

Definition validate {A : Type} (data : list (list A)) : result unit :=
  if is_empty data then Raise (NoData "missing header row")
  else if length data =? 1 then Raise (NoData "only the header is present")
  else
    header ← getitem data 0;
    let header_len := length header in
    let invalid := invalid_rows header_len data in
    if is_empty invalid then Ok tt
    else Raise (MisalignedRows (misaligned_message header_len invalid)).

(** ** The renderer (lines 80-109) *)

(** The line feed character, Python's ["\n"]. *)
Definition LF : string := String "010"%char EmptyString.

(** [s.center(width)] with the default fill character.  CPython
    ([unicode_center_impl]) returns [s] unchanged when [len(s) >= width] and
    otherwise pads with [left = marg / 2 + (marg & width & 1)] spaces on the
    left and [marg - left] on the right, where [marg = width - len(s)]. *)
Definition center (s : string) (width : nat) : string :=
  if width <=? String.length s then s
  else
    let marg := width - String.length s in
    let left := marg / 2 + Nat.land (Nat.land marg width) 1 in
    str_mul " " left +:+ s +:+ str_mul " " (marg - left).

(** [s.ljust(width)] with the default fill character. *)
Definition ljust (s : string) (width : nat) : string :=
  if width <=? String.length s then s
  else s +:+ str_mul " " (width - String.length s).

(** [max(l)] of a sequence of numbers: [ValueError] on an empty one. *)
Definition py_max (l : list nat) : result nat :=
  match l with
  | [] => Raise ValueError
  | x :: l' => Ok (foldl Nat.max x l')
  end.

(** [zip] applied to the unpacked [rows]: the columns of [rows], cut at the
    shortest row; no column at all when there is no row. *)
Fixpoint zip_star {A : Type} (rows : list (list A)) : list (list A) :=
  match rows with
  | [] => []
  | r :: rs =>
      match rs with
      | [] => map (fun c => [c]) r
      | _ :: _ => zip_with cons r (zip_star rs)
      end
  end.

(** The list comprehension of lines 87-90. *)
Definition col_sizes_of (data : list (list string)) : result (list nat) :=
  traverse (fun col => py_max (map String.length col)) (zip_star data).

(** The generators of lines 94-95 and of line 106: [pad(cell, col_sizes[col_idx])]
    for [col_idx, cell] in [enumerate(row)], where [pad] centers in the size
    plus 2 for the header and left-justifies to the size for a data row. *)
Definition pad_cells (pad : string -> nat -> string)
    (col_sizes : list nat) (row : list string) : result (list string) :=
  traverse (fun '(col_idx, cell) =>
              col_size ← getitem col_sizes col_idx;
              Ok (pad cell col_size))
           (enumerate 0 row).

(** The loop of lines 104-107, [x] being the text built so far. *)
Fixpoint add_data_rows (col_sizes : list nat) (x : string) (rows : list (list string))
    : result string :=
  match rows with
  | [] => Ok x
  | row :: rows' =>
      cells ← pad_cells ljust col_sizes row;
      add_data_rows col_sizes (x +:+ "| " +:+ join " | " cells +:+ " |" +:+ LF) rows'
  end.

Definition __str__ (data : list (list string)) : result string :=
  let x := "" in
  col_sizes ← col_sizes_of data;
  header ← getitem data 0;
  cells ← pad_cells (fun cell col_size => center cell (col_size + 2)) col_sizes header;
  let x := x +:+ "|" +:+ join "|" cells +:+ "|" +:+ LF in
  let x := x +:+ "|"
             +:+ join "|" (map (fun col_size => str_mul "-" (col_size + 2)) col_sizes)
             +:+ "|" +:+ LF in
  add_data_rows col_sizes x (drop 1 data).

(** ** The print helper (lines 129-139) *)

(** An output sink is modelled by the text written to it so far (what
    [StringIO.getvalue()] returns in the tests). *)
Definition sink : Type := string.

(** Computations that write to a sink and may raise. *)
Definition io (A : Type) : Type := sink -> sink * result A.

Definition io_ret {A : Type} (a : A) : io A := fun file => (file, Ok a).

Definition io_bind {A B : Type} (m : io A) (f : A -> io B) : io B :=
  fun file =>
    match m file with
    | (file', Ok a) => f a file'
    | (file', Raise e) => (file', Raise e)
    end.

Definition io_lift {A : Type} (r : result A) : io A := fun file => (file, r).

(** [file.write(text)]. *)
Definition write (text : string) : io unit := fun file => (file +:+ text, Ok tt).

#[global] Instance io_mret : MRet io := @io_ret.
#[global] Instance io_mbind : MBind io := fun _ _ f m => io_bind m f.

(** The builtin [print(text, end=end_, file=..., flush=...)] with one
    positional argument, a string: it writes [text], then [end_]; flushing
    does not change what has been written. *)
Definition builtin_print (text end_ : string) (flush : bool) : io unit :=
  _ ← write text; write end_.

Definition print (data : list (list string)) (end_ : string) (flush : bool) : io unit :=
  _ ← io_lift (validate data);
  text ← io_lift (__str__ data);
  builtin_print text end_ flush.

(** The defaults of line 129: [end=""], [flush=False]. *)
Definition print_default (data : list (list string)) : io unit := print data "" false.

(** ** The builders (lines 141-214) *)

(** [str(cell)] for the values a caller puts in a cell. *)
Class PyStr (Any : Type) := py_str : Any -> string.
#[global] Hint Mode PyStr ! : typeclass_instances.

#[global] Instance str_PyStr : PyStr string := fun s => s.
#[global] Instance int_PyStr : PyStr nat := str_int.

(** A [Mapping[str, Any]]: the items in iteration order. *)
Definition dict (Any : Type) : Type := list (string * Any).

(** [d.keys()]. *)
Definition keys {Any : Type} (d : dict Any) : list string := map fst d.

(** [d[k]]. *)
Definition dict_getitem {Any : Type} (d : dict Any) (k : string) : result Any :=
  match List.find (fun '(k', _) => String.eqb k' k) d with
  | Some (_, v) => Ok v
  | None => Raise (KeyError k)
  end.

(** [k in d]. *)
Definition dict_contains {Any : Type} (d : dict Any) (k : string) : bool :=
  existsb (fun '(k', _) => String.eqb k' k) d.

(** The protocols of lines 27-51. *)
Class HasFields (R : Type) := _fields : R -> list string.

Class NamedTupleLike (R Any : Type) := {
  NamedTupleLike_fields :: HasFields R;
  __iter__ : R -> list Any
}.

Class Serializable (R : Type) := {
  Serializable_fields :: HasFields R;
  serialize : R -> list string
}.

(** A record given by its field names and by the values its iteration
    yields, the simplest implementation of the first protocol. *)
Record namedtuple (Any : Type) : Type := {
  nt_fields : list string;
  nt_values : list Any
}.
Arguments nt_fields {Any} _.
Arguments nt_values {Any} _.

#[global] Instance namedtuple_NamedTupleLike {Any : Type} : NamedTupleLike (namedtuple Any) Any := {
  NamedTupleLike_fields := nt_fields;
  __iter__ := nt_values
}.

(** A record given by its field names and by what [serialize()] returns. *)
Record serializable : Type := {
  ser_fields : list string;
  ser_cells : list string
}.

#[global] Instance serializable_Serializable : Serializable serializable := {
  Serializable_fields := ser_fields;
  serialize := ser_cells
}.

(** The comprehension of line 148 on the contents of the input. *)
Definition str_cells {Any : Type} `{PyStr Any} (iters : list (list Any)) : list (list string) :=
  map (fun row => map (fun cell => py_str cell) row) iters.

(** The comprehension of line 165: [[str(d[k]) for k in header]]. *)
Definition row_of_dict {Any : Type} `{PyStr Any} (header : list string) (d : dict Any)
    : result (list string) :=
  traverse (fun k => v ← dict_getitem d k; Ok (py_str v)) header.

(** The loop of lines 161-165, [data] being the list built so far. *)
Fixpoint from_dicts_loop {Any : Type} `{PyStr Any}
    (data : list (list string)) (dicts : list (dict Any)) : result (list (list string)) :=
  match dicts with
  | [] => Ok data
  | d :: dicts' =>
      let data := if is_empty data then data ++ [keys d] else data in
      header ← getitem data 0;
      row ← row_of_dict header d;
      from_dicts_loop (data ++ [row]) dicts'
  end.

Definition from_dicts {Any : Type} `{PyStr Any} (dicts : list (dict Any))
    : result (list (list string)) :=
  from_dicts_loop [] dicts.

(** The loop of lines 184-188. *)
Fixpoint from_namedtuples_loop {R Any : Type} `{NamedTupleLike R Any} `{PyStr Any}
    (data : list (list string)) (named_tuples : list R) : list (list string) :=
  match named_tuples with
  | [] => data
  | nt :: named_tuples' =>
      let data := if is_empty data then data ++ [_fields nt] else data in
      from_namedtuples_loop (data ++ [map (fun i => py_str i) (__iter__ nt)]) named_tuples'
  end.

Definition from_namedtuples {R Any : Type} `{NamedTupleLike R Any} `{PyStr Any}
    (named_tuples : list R) : list (list string) :=
  from_namedtuples_loop [] named_tuples.

(** The loop of lines 208-212. *)
Fixpoint from_serializable_loop {R : Type} `{Serializable R}
    (data : list (list string)) (named_tuples : list R) : list (list string) :=
  match named_tuples with
  | [] => data
  | nt :: named_tuples' =>
      let data := if is_empty data then data ++ [_fields nt] else data in
      from_serializable_loop (data ++ [serialize nt]) named_tuples'
  end.

Definition from_serializable {R : Type} `{Serializable R} (named_tuples : list R)
    : list (list string) :=
  from_serializable_loop [] named_tuples.

(** ** List objects and their identity (lines 72-78 and 141-148)

    [__init__] keeps a reference to the caller's list, [from_2d_iterable]
    builds new lists.  To tell the two apart the list objects are placed in
    a heap: a location is an index in the heap, a new object is appended. *)

Abbreviation loc := nat (only parsing).

(** What a cell of a list can hold: a [str], or any other value. *)
Inductive value (Any : Type) : Type :=
| VStr (s : string)
| VObj (a : Any).
Arguments VStr {Any} s.
Arguments VObj {Any} a.

#[global] Instance value_PyStr {Any : Type} `{PyStr Any} : PyStr (value Any) :=
  fun v => match v with
           | VStr s => s
           | VObj a => py_str a
           end.

(** A list object: a row, whose items are cells, or a list of rows, whose
    items are references to row objects. *)
Inductive object (Any : Type) : Type :=
| Row (cells : list (value Any))
| Rows (items : list loc).
Arguments Row {Any} cells.
Arguments Rows {Any} items.

Abbreviation heap Any := (list (object Any)) (only parsing).

Definition alloc {Any : Type} (h : heap Any) (o : object Any) : heap Any * loc :=
  (h ++ [o], length h).

Definition read_row {Any : Type} (h : heap Any) (l : loc) : option (list (value Any)) :=
  match h !! l with
  | Some (Row cells) => Some cells
  | _ => None
  end.

Definition read_rows {Any : Type} (h : heap Any) (l : loc) : option (list loc) :=
  match h !! l with
  | Some (Rows items) => Some items
  | _ => None
  end.

(** The contents of the list of lists at [l]; [None] when [l] does not hold
    a list of rows. *)
Definition read_2d {Any : Type} (h : heap Any) (l : loc) : option (list (list (value Any))) :=
  items ← read_rows h l; mapM (read_row h) items.

(** The list objects a list of lists is made of: itself and its rows. *)
Definition footprint {Any : Type} (h : heap Any) (l : loc) : list loc :=
  l :: default [] (read_rows h l).

(** [lst[i] = v] on the row object at [l]. *)
Definition setitem {Any : Type} (h : heap Any) (l : loc) (i : nat) (v : value Any)
    : option (heap Any) :=
  cells ← read_row h l;
  if decide (i < length cells) then Some (<[l := Row (<[i := v]> cells)]> h) else None.

(** An instance of the class: its only attribute is the reference [self.data]. *)
Record MarkdownTable : Type := { data : loc }.

(** Lines 72-78: the reference is stored, nothing is copied. *)
Definition __init__ (data : loc) : MarkdownTable := {| data := data |}.

Definition as_str {Any : Type} (v : value Any) : option string :=
  match v with
  | VStr s => Some s
  | VObj _ => None
  end.

(** The contents of [self.data], a [List[List[str]]]. *)
Definition table_data {Any : Type} (h : heap Any) (self : MarkdownTable)
    : option (list (list string)) :=
  rows ← read_2d h (data self); mapM (mapM as_str) rows.

(** The inner comprehension of line 148: the new row object made of the
    [str] of the cells of a row. *)
Definition str_value {Any : Type} `{PyStr Any} (cell : value Any) : value Any :=
  VStr (py_str cell).

Definition copy_row {Any : Type} `{PyStr Any} (cells : list (value Any)) : object Any :=
  Row (map str_value cells).

(** The outer comprehension of line 148: each row of the input is read and a
    new row object is allocated for it. *)
Fixpoint copy_rows {Any : Type} `{PyStr Any} (h : heap Any) (items : list loc)
    : option (heap Any * list loc) :=
  match items with
  | [] => Some (h, [])
  | r :: items' =>
      cells ← read_row h r;
      let '(h1, l) := alloc h (copy_row cells) in
      '(h2, ls) ← copy_rows h1 items';
      Some (h2, l :: ls)
  end.

(** The row objects that comprehension allocates for the input [rows]. *)
Definition copied_rows {Any : Type} `{PyStr Any} (rows : list (list (value Any)))
    : list (object Any) :=
  map copy_row rows.

(** [from_2d_iterable] on a list of lists held at [iters]; [None] when
    [iters] does not hold a list of rows. *)
Definition from_2d_iterable {Any : Type} `{PyStr Any} (h : heap Any) (iters : loc)
    : option (heap Any * MarkdownTable) :=
  items ← read_rows h iters;
  '(h1, ls) ← copy_rows h items;
  let '(h2, l) := alloc h1 (Rows ls) in
  Some (h2, __init__ l).

(** ** Fixtures of [test_table2md.py] *)

(** The grid of [test_init_simple], also the first example of the
    specification. *)
Definition simple_grid : list (list string) :=
  [["foo"; "bar"]; ["spam"; "eggs"]; ["hello"; "world"]].

(** The same rows as a caller holds them: lists of cells, each a [str]
    (a cell that is not a [str] would be an [int]). *)
Definition simple_input : list (list (value nat)) :=
  [[VStr "foo"; VStr "bar"]; [VStr "spam"; VStr "eggs"]; [VStr "hello"; VStr "world"]].

(** A heap holding them as three row objects and their list, at location 3. *)
Definition simple_heap : heap nat := map Row simple_input ++ [Rows [0; 1; 2]].

(** The list of lists of [test_init_no_copy] and
    [test_from_2d_iterable_copies], the outer list at location 3. *)
Definition constants_heap : heap nat :=
  [Row [VStr "constant"; VStr "value"];
   Row [VStr "pi"; VStr "6.28"];
   Row [VStr "e"; VStr "2.71"];
   Rows [0; 1; 2]].

(** [Measurement] and [EnhancesMeasurement] of the tests, a [float] being
    given by its [str]. *)
Definition Measurement (name percentage : string) : namedtuple string :=
  {| nt_fields := ["name"; "percentage"]; nt_values := [name; percentage] |}.

Definition EnhancesMeasurement (name percentage serial_no : string) : namedtuple string :=
  {| nt_fields := ["name"; "percentage"; "serial_no"];
     nt_values := [name; percentage; serial_no] |}.

(** The same records with what their [serialize] returns. *)
Definition Measurement_serializable (name percent : string) : serializable :=
  {| ser_fields := ["name"; "percentage"]; ser_cells := [name; percent] |}.

Definition EnhancesMeasurement_serializable (name percent serial : string) : serializable :=
  {| ser_fields := ["name"; "percentage"; "serial_no"];
     ser_cells := [name; percent; serial] |}.

(** The records of the first kind seen through the second protocol, with a
    [serialize] that returns their values, strings already, as they are. *)
Definition namedtuple_as_serializable : Serializable (namedtuple string) :=
  {| Serializable_fields := nt_fields; serialize := nt_values |}.

(** ** Vocabulary of the specification *)

(** Row [i] of [data] is a data row whose cell count differs from the
    header's: rows are numbered from the header, which is row 0. *)
Definition offending {A : Type} (data : list (list A)) (i : nat) : Prop :=
  1 <= i /\ exists header row,
    data !! 0 = Some header /\ data !! i = Some row /\ length row <> length header.

(** The cells of column [j], one for each row that has a cell there. *)
Definition column (data : list (list string)) (j : nat) : list string :=
  omap (fun row => row !! j) data.

(** The width of column [j]: the greatest length among its cells. *)
Definition column_width (data : list (list string)) (j : nat) : nat :=
  foldr Nat.max 0 (map String.length (column data j)).

(** The widths of the columns of the header. *)
Definition column_widths (data : list (list string)) : list nat :=
  match data with
  | [] => []
  | header :: _ => map (column_width data) (seq 0 (length header))
  end.

(** Centering as the specification words it: the padding is split as evenly
    as possible around [s]; when it is odd, the side of the one extra space
    is given by [extra_on_left]. *)
Definition center_split (extra_on_left : bool) (s : string) (width : nat) : string :=
  let padding := width - String.length s in
  let small := padding / 2 in
  let big := padding - small in
  if extra_on_left then str_mul " " big +:+ s +:+ str_mul " " small
  else str_mul " " small +:+ s +:+ str_mul " " big.

(** The header row of the specification: each cell centered within its
    column width plus 2, cells joined by a bar, a bar at both ends.
    [extra_on_left] tells, from the width a cell is centered in, where the
    extra space of an odd padding goes. *)
Definition header_row (extra_on_left : nat -> bool)
    (header : list string) (widths : list nat) : string :=
  "|" +:+ join "|" (zip_with (fun cell w => center_split (extra_on_left (w + 2)) cell (w + 2))
                             header widths)
      +:+ "|".

(** The separator row: a run of dashes of the column width plus 2 for each
    column. *)
Definition separator_row (widths : list nat) : string :=
  "|" +:+ join "|" (map (fun w => str_mul "-" (w + 2)) widths) +:+ "|".

(** A data row: each cell left-justified to its column width. *)
Definition data_row (widths : list nat) (row : list string) : string :=
  "| " +:+ join " | " (zip_with ljust row widths) +:+ " |".

(** The given lines, each terminated by a line feed. *)
Fixpoint lines (l : list string) : string :=
  match l with
  | [] => ""
  | line :: l' => line +:+ LF +:+ lines l'
  end.

(** The row the mapping-sequence builder makes of the mapping [d]: for each
    header key, in order, the string of the value [d] has for it. *)
Definition dict_row {Any : Type} `{PyStr Any} (header : list string) (d : dict Any)
    (row : list string) : Prop :=
  Forall2 (fun k cell => exists v, dict_getitem d k = Ok v /\ cell = py_str v) header row.

(** The number of characters of a line of a table whose columns have the
    given widths: the width and three more characters for each column, and
    one closing bar. *)
Definition table_width (widths : list nat) : nat :=
  foldr (fun w acc => w + 3 + acc) 1 widths.

(** * Properties *)

(** ** Validation *)

Lemma elem_of_filter_enumerate {A : Type} (P : nat * A -> bool) (l : list A) :
  forall (start i : nat),
    i ∈ map fst (List.filter P (enumerate start l)) <->
    start <= i /\ exists x, l !! (i - start) = Some x /\ P (i, x) = true.
Proof.
  induction l as [|y l IH]; intros start i; simpl.
  - split; [intros Hin; inversion Hin | intros (_ & x & Hx & _); discriminate].
  - assert (Htail : i ∈ map fst (List.filter P (enumerate (S start) l)) <->
                    start < i /\ exists x, (y :: l) !! (i - start) = Some x /\ P (i, x) = true).
    { rewrite IH. split.
      - intros (Hle & x & Hx & HP). split; [lia|]. exists x. split; [|done].
        replace (i - start) with (S (i - S start)) by lia. done.
      - intros (Hlt & x & Hx & HP). split; [lia|]. exists x. split; [|done].
        replace (i - start) with (S (i - S start)) in Hx by lia. done. }
    destruct (P (start, y)) eqn:HPy; simpl.
    + rewrite elem_of_cons, Htail. split.
      * intros [-> | (Hlt & x & Hx & HP)].
        -- split; [lia|]. exists y. rewrite Nat.sub_diag. done.
        -- split; [lia|]. eauto.
      * intros (Hle & x & Hx & HP).
        destruct (decide (i = start)) as [->|Hne]; [by left|].
        right. split; [lia|]. eauto.
    + rewrite Htail. split.
      * intros (Hlt & x & Hx & HP). split; [lia|]. eauto.
      * intros (Hle & x & Hx & HP).
        destruct (decide (i = start)) as [->|Hne].
        -- rewrite Nat.sub_diag in Hx. simpl in Hx. congruence.
        -- split; [lia|]. eauto.
Qed.

Lemma elem_of_invalid_rows {A : Type} (header_len : nat) (data : list (list A)) (i : nat) :
  i ∈ invalid_rows header_len data <->
  1 <= i /\ exists row, data !! i = Some row /\ length row <> header_len.
Proof.
  unfold invalid_rows. rewrite elem_of_filter_enumerate.
  split; intros (Hle & row & Hrow & Hlen); (split; [done|]); exists row.
  - rewrite lookup_drop in Hrow. replace (1 + (i - 1)) with i in Hrow by lia.
    split; [done|]. apply negb_true_iff, Nat.eqb_neq in Hlen. done.
  - rewrite lookup_drop. replace (1 + (i - 1)) with i by lia.
    split; [done|]. apply negb_true_iff, Nat.eqb_neq. done.
Qed.

Lemma is_empty_true {A : Type} (l : list A) : is_empty l = true <-> l = [].
Proof. destruct l; simpl; split; congruence. Qed.

Lemma is_empty_false {A : Type} (l : list A) : is_empty l = false <-> exists x, x ∈ l.
Proof.
  destruct l as [|x l]; simpl; split; try congruence.
  - intros [x Hx]. inversion Hx.
  - intros _. exists x. by left.
Qed.

(** What [validate] computes on a grid of at least two rows. *)
Lemma validate_two_rows {A : Type} (header row : list A) (rows : list (list A)) :
  validate (header :: row :: rows)
  = let invalid := invalid_rows (length header) (header :: row :: rows) in
    if is_empty invalid then Ok tt
    else Raise (MisalignedRows (misaligned_message (length header) invalid)).
Proof. reflexivity. Qed.

(** C1. [validate] raises [NoData] exactly on the grids of fewer than two
    rows; it raises [MisalignedRows] exactly on the grids of at least two
    rows one of whose data rows differs in cell count from the header, and
    the message is then the text ["expected N cells, violated by rows "],
    [N] being the header's cell count in decimal, followed by the decimal
    indices, separated by [", "], of every such row and of no other (the
    header being row 0, the first data row is row 1); on every other grid
    it returns normally, and it raises nothing else. *)
Theorem validate_spec {A : Type} (data : list (list A)) :
  ((exists msg, validate data = Raise (NoData msg)) <-> length data < 2) /\
  ((exists msg, validate data = Raise (MisalignedRows msg)) <->
     2 <= length data /\ exists i, offending data i) /\
  (forall msg, validate data = Raise (MisalignedRows msg) ->
     exists header,
       data !! 0 = Some header /\
       msg = "expected " +:+ pretty (length header) +:+ " cells, violated by rows "
             +:+ String.concat ", " (map pretty (invalid_rows (length header) data)) /\
       forall i, i ∈ invalid_rows (length header) data <-> offending data i) /\
  (validate data = Ok tt <-> 2 <= length data /\ ~ exists i, offending data i) /\
  (forall e, validate data = Raise e -> is_InvalidData e = true).
Proof.
  destruct data as [|header [|row rows]].
  - (* no row *)
    split; [|split; [|split; [|split]]].
    + split; [intros _; simpl; lia | intros _; by eexists].
    + split; [intros [msg Hm]; discriminate | intros [Hlen _]; simpl in Hlen; lia].
    + intros msg Hm. discriminate.
    + split; [intros Hm; discriminate | intros [Hlen _]; simpl in Hlen; lia].
    + intros e He. by inversion He.
  - (* the header only *)
    split; [|split; [|split; [|split]]].
    + split; [intros _; simpl; lia | intros _; by eexists].
    + split; [intros [msg Hm]; discriminate | intros [Hlen _]; simpl in Hlen; lia].
    + intros msg Hm. discriminate.
    + split; [intros Hm; discriminate | intros [Hlen _]; simpl in Hlen; lia].
    + intros e He. by inversion He.
  - (* a header and at least one data row *)
    rewrite validate_two_rows. cbv zeta.
    set (d := header :: row :: rows).
    assert (Hlen : 2 <= length d) by (simpl; lia).
    assert (Hoff : forall i, i ∈ invalid_rows (length header) d <-> offending d i).
    { intros i. rewrite elem_of_invalid_rows. unfold offending. split.
      - intros (Hle & r & Hr & Hne). split; [done|]. exists header, r. done.
      - intros (Hle & hd & r & Hhd & Hr & Hne). split; [done|].
        exists r. split; [done|]. simpl in Hhd. congruence. }
    destruct (is_empty (invalid_rows (length header) d)) eqn:Hemp.
    + apply is_empty_true in Hemp.
      assert (Hnone : ~ exists i, offending d i).
      { intros [i Hi]. apply Hoff in Hi. rewrite Hemp in Hi. inversion Hi. }
      split; [|split; [|split; [|split]]].
      * split; [intros [msg Hm]; discriminate | lia].
      * split; [intros [msg Hm]; discriminate | intros [_ Hex]; done].
      * intros msg Hm. discriminate.
      * done.
      * intros e He. discriminate.
    + apply is_empty_false in Hemp. destruct Hemp as [i Hi].
      assert (Hsome : exists i, offending d i) by (exists i; by apply Hoff).
      split; [|split; [|split; [|split]]].
      * split; [intros [msg Hm]; discriminate | lia].
      * split; [done | intros _; by eexists].
      * intros msg Hm. exists header. split; [done|]. split; [|apply Hoff].
        injection Hm as <-. reflexivity.
      * split; [intros Hm; discriminate | intros [_ Hno]; done].
      * intros e He. by inversion He.
Qed.

Lemma invalid_rows_enumerate_shape {A B : Type} (header_len : nat)
    (l1 : list (list A)) (l2 : list (list B)) :
  map length l1 = map length l2 ->
  forall start,
    map fst (List.filter (fun '(_, row) => negb (length row =? header_len)) (enumerate start l1))
    = map fst (List.filter (fun '(_, row) => negb (length row =? header_len)) (enumerate start l2)).
Proof.
  revert l2. induction l1 as [|r1 l1 IH]; intros [|r2 l2] Hshape start;
    simpl in *; try discriminate; [done|].
  injection Hshape as Hr Hl. rewrite Hr.
  destruct (negb (length r2 =? header_len)); simpl; by rewrite (IH l2 Hl).
Qed.

(** C10. The outcome of [validate] (normal return, or the exception raised
    together with its message, hence the row indices it lists) is a function
    of the row-length profile of the grid: two grids with the same number of
    rows and the same cell count in each row validate identically, whatever
    their cells hold. *)
Theorem validate_shape_only {A B : Type} (data1 : list (list A)) (data2 : list (list B)) :
  map length data1 = map length data2 ->
  validate data1 = validate data2.
Proof.
  intros Hshape.
  destruct data1 as [|h1 [|r1 rows1]], data2 as [|h2 [|r2 rows2]];
    simpl in Hshape; try discriminate; try reflexivity.
  injection Hshape as Hh Hr Hrows.
  rewrite !validate_two_rows. cbv zeta. rewrite Hh.
  assert (Hinv : invalid_rows (length h2) (h1 :: r1 :: rows1)
                 = invalid_rows (length h2) (h2 :: r2 :: rows2)).
  { unfold invalid_rows. simpl drop.
    apply invalid_rows_enumerate_shape. simpl. by rewrite Hr, Hrows. }
  by rewrite Hinv.
Qed.

Lemma validate_shape_only_witness :
  map length [["a"; "b"]; ["c"]; ["d"; "e"]] = map length [[1; 2]; [3]; [4; 5]] /\
  validate [["a"; "b"]; ["c"]; ["d"; "e"]] = validate [[1; 2]; [3]; [4; 5]].
Proof. split; [reflexivity | apply validate_shape_only; reflexivity]. Defined.

(** ** Rendering *)

Lemma result_bind_Ok {A B : Type} (a : A) (f : A -> result B) : Ok a ≫= f = f a.
Proof. reflexivity. Qed.

Lemma traverse_Ok_map {A B : Type} (f : A -> result B) (g : A -> B) (l : list A) :
  (forall x, x ∈ l -> f x = Ok (g x)) -> traverse f l = Ok (map g l).
Proof.
  induction l as [|x l IH]; intros Hf; simpl; [done|].
  rewrite (Hf x) by (by left). simpl.
  rewrite IH by (intros y Hy; apply Hf; by right). done.
Qed.

Lemma getitem_Some {A : Type} (l : list A) (i : nat) (x : A) :
  l !! i = Some x -> getitem l i = Ok x.
Proof. intros Hx. unfold getitem. by rewrite Hx. Qed.

Lemma getitem_None {A : Type} (l : list A) (i : nat) :
  l !! i = None -> getitem l i = Raise IndexError.
Proof. intros Hx. unfold getitem. by rewrite Hx. Qed.

Lemma pad_cells_from (pad : string -> nat -> string) (col_sizes : list nat) (row : list string) :
  forall start, start + length row <= length col_sizes ->
    traverse (fun '(col_idx, cell) =>
                col_size ← getitem col_sizes col_idx; Ok (pad cell col_size))
             (enumerate start row)
    = Ok (zip_with pad row (drop start col_sizes)).
Proof.
  induction row as [|cell row IH]; intros start Hlen; simpl in *; [done|].
  destruct (lookup_lt_is_Some_2 col_sizes start) as [w Hw]; [lia|].
  rewrite (getitem_Some _ _ _ Hw). simpl.
  rewrite IH by lia. simpl.
  rewrite (drop_S _ _ _ Hw). done.
Qed.

(** When no cell lies beyond the computed sizes, the padded cells of a row
    are obtained cell by cell. *)
Lemma pad_cells_ok (pad : string -> nat -> string) (col_sizes : list nat) (row : list string) :
  length row <= length col_sizes ->
  pad_cells pad col_sizes row = Ok (zip_with pad row col_sizes).
Proof. intros Hlen. unfold pad_cells. by rewrite pad_cells_from. Qed.

(** *** Strings *)

Lemma append_nil_r (s : string) : s +:+ "" = s.
Proof. induction s as [|c s IH]; [done|]. change (String c (s +:+ "") = String c s). by rewrite IH. Qed.

Lemma append_assoc (s1 s2 s3 : string) : (s1 +:+ s2) +:+ s3 = s1 +:+ s2 +:+ s3.
Proof.
  induction s1 as [|c s1 IH]; [done|].
  change (String c ((s1 +:+ s2) +:+ s3) = String c (s1 +:+ s2 +:+ s3)). by rewrite IH.
Qed.

(** *** Centering *)

Lemma land_land_1 (m w : nat) :
  Nat.land (Nat.land m w) 1 = Nat.b2n (Nat.odd m && Nat.odd w).
Proof.
  change 1 with (Nat.ones 1) at 1. rewrite Nat.land_ones. change (2 ^ 1) with 2.
  rewrite <- Nat.bit0_mod, Nat.land_spec, !Nat.bit0_odd. done.
Qed.

Lemma half_up (m : nat) : m - m / 2 = m / 2 + Nat.b2n (Nat.odd m).
Proof.
  rewrite <- Nat.bit0_odd, Nat.bit0_mod.
  pose proof (Nat.div_mod_eq m 2). pose proof (Nat.mod_upper_bound m 2). lia.
Qed.

(** [str.center] splits the padding as evenly as possible; the extra space
    of an odd padding goes to the left when the width centered in is odd,
    to the right when it is even. *)
Lemma center_center_split (s : string) (width : nat) :
  center s width = center_split (Nat.odd width) s width.
Proof.
  unfold center, center_split. cbv zeta.
  destruct (Nat.leb_spec width (String.length s)) as [Hle|Hlt].
  - replace (width - String.length s) with 0 by lia. simpl.
    destruct (Nat.odd width); simpl; by rewrite append_nil_r.
  - set (marg := width - String.length s).
    rewrite land_land_1. rewrite (half_up marg).
    destruct (Nat.odd width) eqn:Hw.
    + rewrite andb_true_r.
      replace (marg - (marg / 2 + Nat.b2n (Nat.odd marg))) with (marg / 2)
        by (pose proof (half_up marg); lia).
      done.
    + rewrite andb_false_r. simpl Nat.b2n. rewrite Nat.add_0_r.
      rewrite (half_up marg). done.
Qed.

(** *** Column sizes *)

Lemma column_cons_Some (row : list string) (rows : list (list string)) (j : nat) (cell : string) :
  row !! j = Some cell -> column (row :: rows) j = cell :: column rows j.
Proof. intros Hj. unfold column. simpl. by rewrite Hj. Qed.

(** On a non-empty grid whose rows all have [n] cells, [zip] yields the [n]
    columns. *)
Lemma zip_star_rect (n : nat) (data : list (list string)) :
  data <> [] ->
  Forall (fun row => length row = n) data ->
  zip_star data = map (column data) (seq 0 n).
Proof.
  induction data as [|r rs IH]; [done|]. intros _ Hrect.
  apply Forall_cons in Hrect as [Hr Hrs].
  apply list_eq. intros j.
  rewrite list_lookup_fmap.
  destruct (decide (j < n)) as [Hlt|Hge].
  - rewrite lookup_seq_lt by done. simpl.
    destruct (lookup_lt_is_Some_2 r j) as [cell Hcell]; [lia|].
    rewrite Hcell.
    destruct rs as [|r' rs'].
    + rewrite list_lookup_fmap, Hcell. done.
    + rewrite IH by done. rewrite lookup_zip_with, Hcell. simpl.
      rewrite list_lookup_fmap, lookup_seq_lt by done. done.
  - rewrite lookup_seq_ge by lia. simpl.
    apply lookup_ge_None.
    destruct rs as [|r' rs'].
    + rewrite length_fmap. lia.
    + rewrite length_zip_with. lia.
Qed.

Lemma foldl_max_foldr (x : nat) (l : list nat) :
  foldl Nat.max x l = foldr Nat.max 0 (x :: l).
Proof.
  revert x. induction l as [|y l IH]; intros x; simpl; [lia|].
  rewrite IH. simpl. lia.
Qed.

(** On a rectangular grid the sizes computed by lines 87-90 are the column
    widths, one per header cell; [max] is never given an empty column. *)
Lemma col_sizes_of_rect (header : list string) (rows : list (list string)) :
  Forall (fun row => length row = length header) rows ->
  col_sizes_of (header :: rows) = Ok (column_widths (header :: rows)).
Proof.
  intros Hrect. unfold col_sizes_of, column_widths.
  rewrite (zip_star_rect (length header)); [|done|by constructor].
  set (data := header :: rows).
  rewrite (traverse_Ok_map _ (fun col => foldr Nat.max 0 (map String.length col))).
  - rewrite <- list_fmap_compose. done.
  - intros col Hcol. apply list_elem_of_fmap in Hcol as (j & -> & Hj).
    apply elem_of_seq in Hj.
    destruct (lookup_lt_is_Some_2 header j) as [cell Hcell]; [lia|].
    subst data. rewrite (column_cons_Some _ _ _ _ Hcell). simpl.
    rewrite foldl_max_foldr. done.
Qed.

(** Every cell of column [j] fits in the column width, and some cell of a
    non-empty column has exactly that length. *)
Lemma column_width_cons (r : list string) (rs : list (list string)) (j : nat) :
  column_width (r :: rs) j
  = match r !! j with
    | Some cell => Nat.max (String.length cell) (column_width rs j)
    | None => column_width rs j
    end.
Proof. unfold column_width, column. simpl. by destruct (r !! j). Qed.

Lemma column_width_upper (data : list (list string)) (j : nat) (row : list string) (cell : string) :
  row ∈ data -> row !! j = Some cell -> String.length cell <= column_width data j.
Proof.
  induction data as [|r rs IH]; intros Hin Hcell.
  - inversion Hin.
  - rewrite column_width_cons.
    apply elem_of_cons in Hin as [<- | Hin].
    + rewrite Hcell. lia.
    + specialize (IH Hin Hcell). destruct (r !! j); lia.
Qed.

Lemma column_width_attained (data : list (list string)) (j : nat) :
  column data j <> [] ->
  exists row cell, row ∈ data /\ row !! j = Some cell /\ String.length cell = column_width data j.
Proof.
  induction data as [|r rs IH]; [done|].
  rewrite column_width_cons. unfold column in *. simpl.
  destruct (r !! j) as [cell|] eqn:Hcell.
  - intros _. destruct (decide (omap (fun row => row !! j) rs = [])) as [Hnil|Hne].
    + exists r, cell. split; [by left|]. split; [done|].
      unfold column_width, column. rewrite Hnil. simpl. lia.
    + destruct (IH Hne) as (row & c & Hin & Hc & Hlen).
      destruct (Nat.max_spec (String.length cell) (column_width rs j)) as [[_ ->] | [_ ->]].
      * exists row, c. split; [by right|]. done.
      * exists r, cell. split; [by left|]. done.
  - intros Hne. destruct (IH Hne) as (row & c & Hin & Hc & Hlen).
    exists row, c. split; [by right|]. done.
Qed.

(** *** The rendered text *)

Lemma add_data_rows_ok (widths : list nat) (rows : list (list string)) :
  Forall (fun row => length row <= length widths) rows ->
  forall x, add_data_rows widths x rows = Ok (x +:+ lines (map (data_row widths) rows)).
Proof.
  induction rows as [|row rows IH]; intros Hfit x; simpl.
  - by rewrite append_nil_r.
  - apply Forall_cons in Hfit as [Hrow Hrows].
    rewrite pad_cells_ok by done. simpl.
    rewrite IH by done. unfold data_row. by rewrite !append_assoc.
Qed.

Lemma length_column_widths (header : list string) (rows : list (list string)) :
  length (column_widths (header :: rows)) = length header.
Proof. unfold column_widths. by rewrite length_fmap, length_seq. Qed.

(** The renderer on a rectangular grid with a header: the header row, the
    separator row and the data rows, each ended by a line feed. *)
Lemma render_rect (header : list string) (rows : list (list string)) :
  Forall (fun row => length row = length header) rows ->
  __str__ (header :: rows)
  = Ok (lines (header_row Nat.odd header (column_widths (header :: rows))
               :: separator_row (column_widths (header :: rows))
               :: map (data_row (column_widths (header :: rows))) rows)).
Proof.
  intros Hrect. unfold __str__. cbv zeta.
  rewrite col_sizes_of_rect by done.
  set (widths := column_widths (header :: rows)).
  assert (Hlen : length widths = length header) by apply length_column_widths.
  rewrite result_bind_Ok.
  change (getitem (header :: rows) 0) with (Ok header). rewrite result_bind_Ok.
  rewrite pad_cells_ok by lia. rewrite result_bind_Ok.
  change (drop 1 (header :: rows)) with rows.
  rewrite add_data_rows_ok.
  - unfold header_row, separator_row.
    rewrite (zip_with_ext _ (fun cell w => center_split (Nat.odd (w + 2)) cell (w + 2))
               header header widths widths);
      [|intros; apply center_center_split|done|done].
    simpl lines. by rewrite !append_assoc.
  - eapply Forall_impl; [exact Hrect|]. simpl. intros row Hrow. lia.
Qed.

(** A grid that passes validation has a header and at least one data row,
    and its data rows have as many cells as the header. *)
Lemma validate_Ok_rect {A : Type} (data : list (list A)) :
  validate data = Ok tt ->
  exists header row rows,
    data = header :: row :: rows /\
    Forall (fun r => length r = length header) (row :: rows).
Proof.
  intros Hok.
  destruct data as [|header [|row rows]]; [discriminate..|].
  rewrite validate_two_rows in Hok. cbv zeta in Hok.
  destruct (is_empty _) eqn:Hemp in Hok; [|discriminate].
  apply is_empty_true in Hemp.
  exists header, row, rows. split; [done|].
  apply Forall_lookup. intros i r Hr.
  destruct (decide (length r = length header)) as [|Hne]; [done|].
  assert (Hin : S i ∈ invalid_rows (length header) (header :: row :: rows)).
  { apply elem_of_invalid_rows. split; [lia|]. exists r. done. }
  rewrite Hemp in Hin. inversion Hin.
Qed.

(** Conversely, such a grid passes validation. *)
Lemma validate_rect_Ok {A : Type} (header row : list A) (rows : list (list A)) :
  Forall (fun r => length r = length header) (row :: rows) ->
  validate (header :: row :: rows) = Ok tt.
Proof.
  intros Hrect. rewrite validate_two_rows. cbv zeta.
  destruct (is_empty _) eqn:Hemp; [done|].
  apply is_empty_false in Hemp as [i Hi].
  apply elem_of_invalid_rows in Hi as (Hle & r & Hr & Hne).
  destruct i as [|i]; [lia|]. simpl in Hr.
  rewrite Forall_lookup in Hrect. by specialize (Hrect i r Hr).
Qed.

(** C3 (as amended). On every grid that passes validation the rendered text
    starts with the header row: each header cell centered within its column
    width plus 2, the cells joined by a bar, a bar at both ends.  The padding
    is split as evenly as possible; when it is odd the one extra space is
    placed as [str.center] places it: on the left when the column width plus
    2 is odd, on the right when it is even. *)
Theorem header_row_centered (data : list (list string)) (header : list string) :
  data !! 0 = Some header ->
  validate data = Ok tt ->
  length (column_widths data) = length header /\
  exists rest,
    __str__ data = Ok (header_row Nat.odd header (column_widths data) +:+ LF +:+ rest).
Proof.
  intros Hheader Hok.
  destruct (validate_Ok_rect data Hok) as (header' & row & rows & -> & Hrect).
  simpl in Hheader. injection Hheader as ->.
  split; [apply length_column_widths|].
  rewrite render_rect by done. simpl lines. eauto.
Qed.

Lemma header_row_centered_witness :
  length (column_widths [["ab"]; ["abc"]]) = 1 /\
  exists rest,
    __str__ [["ab"]; ["abc"]]
    = Ok (header_row Nat.odd ["ab"] (column_widths [["ab"]; ["abc"]]) +:+ LF +:+ rest).
Proof. apply (header_row_centered [["ab"]; ["abc"]] ["ab"]); reflexivity. Defined.

(** C3 as the specification states it, with the extra space of an odd
    padding always on the right, fails: the header ["ab"] over the data cell
    ["abc"] is centered in 5 characters with a padding of 3, and the renderer
    puts two spaces before it and one after. *)
Lemma header_extra_space_not_always_right :
  validate [["ab"]; ["abc"]] = Ok tt /\
  __str__ [["ab"]; ["abc"]] = Ok (lines ["|  ab |"; "|-----|"; "| abc |"]) /\
  header_row (fun _ => false) ["ab"] (column_widths [["ab"]; ["abc"]]) = "| ab  |" /\
  ~ exists rest,
      __str__ [["ab"]; ["abc"]]
      = Ok (header_row (fun _ => false) ["ab"] (column_widths [["ab"]; ["abc"]])
            +:+ LF +:+ rest).
Proof.
  split; [reflexivity|]. split; [reflexivity|]. split; [reflexivity|].
  intros [rest Hrest]. vm_compute in Hrest. discriminate Hrest.
Qed.

Lemma print_unfold (data : list (list string)) (end_ : string) (flush : bool) (file : sink) :
  print data end_ flush file
  = match validate data with
    | Raise e => (file, Raise e)
    | Ok _ =>
        match __str__ data with
        | Raise e => (file, Raise e)
        | Ok text => ((file +:+ text) +:+ end_, Ok tt)
        end
    end.
Proof.
  unfold print, builtin_print, write, io_lift, mbind, io_mbind, io_bind.
  destruct (validate data); [|done]. by destruct (__str__ data).
Qed.

(** C7. [print] validates first.  When validation raises, [print] raises the
    same exception and the sink is left as it was, also where rendering by
    itself would have raised another exception; when validation succeeds,
    rendering succeeds too and the sink receives the rendered text followed
    by the terminator, which is empty by default. *)
Theorem print_spec (data : list (list string)) (end_ : string) (flush : bool) (file : sink) :
  (forall e, validate data = Raise e -> print data end_ flush file = (file, Raise e)) /\
  (validate data = Ok tt ->
     exists text,
       __str__ data = Ok text /\
       print data end_ flush file = (file +:+ text +:+ end_, Ok tt) /\
       print_default data file = (file +:+ text, Ok tt)).
Proof.
  split.
  - intros e He. by rewrite print_unfold, He.
  - intros Hok.
    destruct (validate_Ok_rect data Hok) as (header & row & rows & -> & Hrect).
    eexists. split; [apply render_rect; done|].
    unfold print_default. rewrite !print_unfold, Hok.
    rewrite (render_rect header (row :: rows)) by done.
    split; [by rewrite append_assoc | by rewrite append_nil_r].
Qed.

Lemma print_spec_witness :
  print [["h"]] "" false "" = ("", Raise (NoData "only the header is present")) /\
  exists text,
    __str__ [["foo"; "bar"]; ["spam"; "eggs"]] = Ok text /\
    print [["foo"; "bar"]; ["spam"; "eggs"]] "!" true "" = ("" +:+ text +:+ "!", Ok tt) /\
    print_default [["foo"; "bar"]; ["spam"; "eggs"]] "" = ("" +:+ text, Ok tt).
Proof.
  split.
  - apply (proj1 (print_spec [["h"]] "" false "")). reflexivity.
  - apply (proj2 (print_spec [["foo"; "bar"]; ["spam"; "eggs"]] "!" true "")). reflexivity.
Defined.

(** C9. The renderer does not validate: on a grid made of the header alone
    it returns the header row and the separator row, each ended by a line
    feed, every header cell being set between two spaces and every run of
    dashes being 2 longer than its cell; [validate] raises [NoData] on that
    same grid. *)
Theorem render_header_only (header : list string) :
  __str__ [header]
  = Ok (lines ["|" +:+ join "|" (map (fun cell => " " +:+ cell +:+ " ") header) +:+ "|";
               "|" +:+ join "|" (map (fun cell => str_mul "-" (String.length cell + 2)) header)
                   +:+ "|"]) /\
  validate [header] = Raise (NoData "only the header is present").
Proof.
  split; [|reflexivity].
  rewrite render_rect by constructor.
  assert (Hw : column_widths [header] = map String.length header).
  { unfold column_widths. apply list_eq. intros j.
    rewrite !list_lookup_fmap.
    destruct (header !! j) as [cell|] eqn:Hcell; simpl.
    - rewrite lookup_seq_lt by (by eapply lookup_lt_Some). simpl.
      rewrite column_width_cons, Hcell. unfold column_width. simpl. f_equal. lia.
    - rewrite lookup_seq_ge by (by apply lookup_ge_None). done. }
  rewrite Hw. unfold header_row, separator_row.
  assert (Hc : zip_with (fun cell w => center_split (Nat.odd (w + 2)) cell (w + 2))
                 header (map String.length header)
               = map (fun cell => " " +:+ cell +:+ " ") header).
  { clear Hw. induction header as [|cell header IH]; [done|]. simpl. rewrite IH. f_equal.
    unfold center_split.
    replace (String.length cell + 2 - String.length cell) with 2 by lia.
    by destruct (Nat.odd _). }
  rewrite Hc, <- list_fmap_compose. done.
Qed.

(** ** Builders *)

Lemma traverse_Ok {A B : Type} (f : A -> result B) (l : list A) (ys : list B) :
  traverse f l = Ok ys <-> Forall2 (fun x y => f x = Ok y) l ys.
Proof.
  revert ys. induction l as [|x l IH]; intros ys; simpl.
  - split; [intros [= <-]; constructor | intros Hys; by inversion Hys].
  - destruct (f x) as [y|e] eqn:Hx; simpl.
    + destruct (traverse f l) as [ys'|e] eqn:Hl; simpl.
      * split.
        -- intros [= <-]. constructor; [done|]. by apply IH.
        -- intros Hys. inversion Hys as [|? y' ? ys'' Hy Hrest]; subst.
           apply IH in Hrest. congruence.
      * split; [done|]. intros Hys. inversion Hys as [|? y' ? ys'' Hy Hrest]; subst.
        apply IH in Hrest. discriminate.
    + split; [done|]. intros Hys. inversion Hys; congruence.
Qed.

Lemma traverse_Raise {A B : Type} (f : A -> result B) (l : list A) (e : exn) :
  traverse f l = Raise e -> exists x, x ∈ l /\ f x = Raise e.
Proof.
  induction l as [|x l IH]; simpl; [done|].
  destruct (f x) as [y|e'] eqn:Hx; simpl.
  - destruct (traverse f l) as [ys'|e'] eqn:Hl; simpl; [done|].
    intros [= <-]. destruct (IH eq_refl) as (x' & Hin & Hx'). exists x'. split; [by right|done].
  - intros [= <-]. exists x. split; [by left|done].
Qed.

Lemma dict_contains_keys {Any : Type} (d : dict Any) (k : string) :
  dict_contains d k = true <-> k ∈ keys d.
Proof.
  unfold dict_contains, keys. induction d as [|[k' v] d IH]; simpl.
  - split; [done|]. intros Hin. inversion Hin.
  - rewrite orb_true_iff, IH, elem_of_cons, String.eqb_eq.
    split; (intros [Hk | Hk]; [left | right]); done.
Qed.

Lemma dict_getitem_contains {Any : Type} (d : dict Any) (k : string) :
  dict_contains d k = true -> exists v, dict_getitem d k = Ok v.
Proof.
  unfold dict_contains, dict_getitem. induction d as [|[k' v] d IH]; simpl; [done|].
  destruct (String.eqb k' k); simpl; eauto.
Qed.

Lemma dict_getitem_lacks {Any : Type} (d : dict Any) (k : string) :
  dict_contains d k = false -> dict_getitem d k = Raise (KeyError k).
Proof.
  unfold dict_contains, dict_getitem. induction d as [|[k' v] d IH]; simpl; [done|].
  destruct (String.eqb k' k); simpl; [done|]. exact IH.
Qed.

Lemma row_of_dict_Ok {Any : Type} `{PyStr Any} (header : list string) (d : dict Any)
    (row : list string) :
  row_of_dict header d = Ok row <-> dict_row header d row.
Proof.
  unfold row_of_dict, dict_row. rewrite traverse_Ok.
  split; intros Hrow; (eapply Forall2_impl; [exact Hrow|]); simpl; intros k cell.
  - destruct (dict_getitem d k) as [v|e]; simpl; [|done]. intros [= <-]. eauto.
  - intros (v & -> & ->). done.
Qed.

Lemma row_of_dict_Raise {Any : Type} `{PyStr Any} (header : list string) (d : dict Any) (e : exn) :
  row_of_dict header d = Raise e ->
  exists k, k ∈ header /\ dict_contains d k = false /\ e = KeyError k.
Proof.
  intros Hrow. apply traverse_Raise in Hrow as (k & Hin & Hk).
  exists k. split; [done|].
  destruct (dict_contains d k) eqn:Hc.
  - destruct (dict_getitem_contains d k Hc) as [v Hv]. rewrite Hv in Hk. discriminate.
  - rewrite (dict_getitem_lacks d k Hc) in Hk. simpl in Hk. split; congruence.
Qed.

(** Once the header is there, the loop only appends one row per mapping. *)
Lemma from_dicts_loop_header {Any : Type} `{PyStr Any} (dicts : list (dict Any)) :
  forall (header : list string) (rows : list (list string)),
    from_dicts_loop (header :: rows) dicts
    = new ← traverse (row_of_dict header) dicts; Ok (header :: rows ++ new).
Proof.
  induction dicts as [|d dicts IH]; intros header rows; simpl.
  - by rewrite app_nil_r.
  - destruct (row_of_dict header d) as [row|e]; simpl; [|done].
    rewrite IH. destruct (traverse (row_of_dict header) dicts) as [new|e]; simpl; [|done].
    by rewrite <- app_assoc.
Qed.

Lemma from_dicts_cons {Any : Type} `{PyStr Any} (d : dict Any) (ds : list (dict Any)) :
  from_dicts (d :: ds) = rows ← traverse (row_of_dict (keys d)) (d :: ds); Ok (keys d :: rows).
Proof.
  unfold from_dicts. simpl.
  destruct (row_of_dict (keys d) d) as [row|e]; simpl; [|done].
  rewrite from_dicts_loop_header.
  by destruct (traverse (row_of_dict (keys d)) ds).
Qed.

Lemma from_dicts_Raise {Any : Type} `{PyStr Any} (d : dict Any) (ds : list (dict Any)) (e : exn) :
  from_dicts (d :: ds) = Raise e ->
  exists d' k, d' ∈ ds /\ k ∈ keys d /\ dict_contains d' k = false /\ e = KeyError k.
Proof.
  rewrite from_dicts_cons.
  destruct (traverse (row_of_dict (keys d)) (d :: ds)) as [rows|e'] eqn:Hrows; [done|].
  intros [= ->].
  apply traverse_Raise in Hrows as (d' & Hin & Hrow).
  apply row_of_dict_Raise in Hrow as (k & Hk & Hlacks & ->).
  exists d', k. split; [|done].
  apply elem_of_cons in Hin as [-> | Hin]; [|done].
  apply dict_contains_keys in Hk. congruence.
Qed.

Lemma from_dicts_Ok {Any : Type} `{PyStr Any} (d : dict Any) (ds : list (dict Any))
    (data : list (list string)) :
  from_dicts (d :: ds) = Ok data <->
  exists rows, data = keys d :: rows /\ Forall2 (dict_row (keys d)) (d :: ds) rows.
Proof.
  rewrite from_dicts_cons.
  destruct (traverse (row_of_dict (keys d)) (d :: ds)) as [rows|e'] eqn:Hrows; simpl.
  - apply traverse_Ok in Hrows.
    assert (Hspec : Forall2 (dict_row (keys d)) (d :: ds) rows).
    { eapply Forall2_impl; [exact Hrows|]. intros d' row. apply row_of_dict_Ok. }
    split.
    + intros [= <-]. eauto.
    + intros (rows' & -> & Hrows'). do 2 f_equal.
      assert (Hrows2 : Forall2 (fun d' row => row_of_dict (keys d) d' = Ok row) (d :: ds) rows').
      { eapply Forall2_impl; [exact Hrows'|]. intros d' row. apply row_of_dict_Ok. }
      apply traverse_Ok in Hrows, Hrows2. congruence.
  - split; [done|]. intros (rows' & -> & Hrows').
    assert (Hrows2 : Forall2 (fun d' row => row_of_dict (keys d) d' = Ok row) (d :: ds) rows').
    { eapply Forall2_impl; [exact Hrows'|]. intros d' row. apply row_of_dict_Ok. }
    apply traverse_Ok in Hrows2. congruence.
Qed.

(** C5. The mapping-sequence builder takes the header from the keys of the
    first mapping.  It raises, while building, exactly when some later
    mapping lacks a header key, and then a [KeyError] naming a lacking key;
    it raises nothing else.  When it returns, the grid is the header followed
    by one row per mapping, the first included, each made of the strings of
    the values found under the header keys, in header order: keys outside
    the header play no part. *)
Theorem from_dicts_spec {Any : Type} `{PyStr Any} (d : dict Any) (ds : list (dict Any)) :
  ((exists k, from_dicts (d :: ds) = Raise (KeyError k)) <->
     exists d' k, d' ∈ ds /\ k ∈ keys d /\ dict_contains d' k = false) /\
  (forall e, from_dicts (d :: ds) = Raise e ->
     exists d' k, d' ∈ ds /\ k ∈ keys d /\ dict_contains d' k = false /\ e = KeyError k) /\
  (forall data, from_dicts (d :: ds) = Ok data <->
     exists rows, data = keys d :: rows /\ Forall2 (dict_row (keys d)) (d :: ds) rows) /\
  ((forall d' k, d' ∈ ds -> k ∈ keys d -> dict_contains d' k = true) ->
     exists rows, from_dicts (d :: ds) = Ok (keys d :: rows)).
Proof.
  assert (Hraise : (exists d' k, d' ∈ ds /\ k ∈ keys d /\ dict_contains d' k = false) ->
                   exists k, from_dicts (d :: ds) = Raise (KeyError k)).
  { intros (d' & k & Hin & Hk & Hlacks).
    destruct (from_dicts (d :: ds)) as [data|e] eqn:Hres.
    - apply from_dicts_Ok in Hres as (rows & -> & Hrows).
      apply Forall2_cons_inv_l in Hrows as (row0 & rows' & _ & Hrows & ->).
      apply list_elem_of_lookup in Hin as [i Hi].
      destruct (Forall2_lookup_l _ _ _ _ _ Hrows Hi) as (row & _ & Hrow).
      apply list_elem_of_lookup in Hk as [j Hj].
      destruct (Forall2_lookup_l _ _ _ _ _ Hrow Hj) as (cell & _ & v & Hv & _).
      rewrite (dict_getitem_lacks d' k Hlacks) in Hv. discriminate.
    - apply from_dicts_Raise in Hres as (d'' & k' & _ & _ & _ & ->). eauto. }
  split; [|split; [|split]].
  - split; [|exact Hraise].
    intros [k Hk]. apply from_dicts_Raise in Hk as (d' & k' & Hin & Hk' & Hlacks & _). eauto.
  - intros e. apply from_dicts_Raise.
  - intros data. apply from_dicts_Ok.
  - intros Hall. destruct (from_dicts (d :: ds)) as [data|e] eqn:Hres.
    + apply from_dicts_Ok in Hres as (rows & -> & _). eauto.
    + apply from_dicts_Raise in Hres as (d' & k & Hin & Hk & Hlacks & _).
      rewrite (Hall d' k Hin Hk) in Hlacks. discriminate.
Qed.

Lemma from_dicts_spec_witness :
  exists rows,
    from_dicts [[("constant", "e"); ("value", "2.71")];
                [("constant", "pi"); ("value", "3.14"); ("alt_name", "half tau")]]
    = Ok (["constant"; "value"] :: rows).
Proof.
  apply (proj2 (proj2 (proj2 (from_dicts_spec
           [("constant", "e"); ("value", "2.71")]
           [[("constant", "pi"); ("value", "3.14"); ("alt_name", "half tau")]])))).
  intros d' k Hd Hk.
  apply list_elem_of_In in Hd. apply list_elem_of_In in Hk. simpl in Hd, Hk.
  destruct Hd as [<- | []]. destruct Hk as [<- | [<- | []]]; reflexivity.
Defined.

(** C8. On no mapping at all the mapping-sequence builder returns the grid
    with no row, not even a header, and validating that grid raises [NoData]. *)
Theorem from_dicts_empty {Any : Type} `{PyStr Any} :
  from_dicts ([] : list (dict Any)) = Ok [] /\
  forall data, from_dicts ([] : list (dict Any)) = Ok data ->
    data = [] /\ validate data = Raise (NoData "missing header row").
Proof.
  split; [reflexivity|]. intros data [= <-]. split; reflexivity.
Qed.

Lemma from_namedtuples_loop_header {R Any : Type} `{NamedTupleLike R Any} `{PyStr Any}
    (named_tuples : list R) :
  forall (header : list string) (rows : list (list string)),
    from_namedtuples_loop (header :: rows) named_tuples
    = header :: rows ++ map (fun nt => map (fun i => py_str i) (__iter__ nt)) named_tuples.
Proof.
  induction named_tuples as [|nt nts IH]; intros header rows; simpl.
  - by rewrite app_nil_r.
  - rewrite IH. by rewrite <- app_assoc.
Qed.

Lemma from_serializable_loop_header {R : Type} `{Serializable R} (named_tuples : list R) :
  forall (header : list string) (rows : list (list string)),
    from_serializable_loop (header :: rows) named_tuples
    = header :: rows ++ map serialize named_tuples.
Proof.
  induction named_tuples as [|nt nts IH]; intros header rows; simpl.
  - by rewrite app_nil_r.
  - rewrite IH. by rewrite <- app_assoc.
Qed.

(** A grid two of whose data rows differ in cell count has a data row that
    differs from the header, and validation raises [MisalignedRows]. *)
Lemma validate_heterogeneous_rows {A : Type} (header row : list A) (rows : list (list A))
    (r1 r2 : list A) :
  r1 ∈ row :: rows -> r2 ∈ row :: rows -> length r1 <> length r2 ->
  (exists i, offending (header :: row :: rows) i) /\
  exists msg, validate (header :: row :: rows) = Raise (MisalignedRows msg).
Proof.
  intros Hr1 Hr2 Hne.
  assert (Hbad : exists r, r ∈ row :: rows /\ length r <> length header).
  { destruct (decide (length r1 = length header)) as [Heq|]; [|by exists r1].
    exists r2. split; [done|]. congruence. }
  destruct Hbad as (r & Hr & Hlen).
  apply list_elem_of_lookup in Hr as [i Hi].
  assert (Hin : S i ∈ invalid_rows (length header) (header :: row :: rows)).
  { apply elem_of_invalid_rows. split; [lia|]. exists r. done. }
  split.
  - exists (S i). split; [lia|]. exists header, r. done.
  - rewrite validate_two_rows. cbv zeta.
    destruct (is_empty _) eqn:Hemp; [|by eexists].
    apply is_empty_true in Hemp. rewrite Hemp in Hin. inversion Hin.
Qed.

(** C6. Both record-sequence builders return a grid on every non-empty
    sequence of records, whatever the shapes of the records: the field names
    of the first record, then one row per record, made of the strings of the
    values it yields (first builder) or of what its [serialize] returns
    (second builder).  When two records differ in cell count, some data row
    of that grid differs in length from the header and validating the grid
    raises [MisalignedRows]. *)
Theorem record_builders_heterogeneous {R Any S : Type}
    `{NamedTupleLike R Any} `{PyStr Any} `{Serializable S} :
  (forall (nt : R) (nts : list R),
     from_namedtuples (nt :: nts)
     = _fields nt :: map (fun r => map (fun i => py_str i) (__iter__ r)) (nt :: nts) /\
     forall r1 r2, r1 ∈ nt :: nts -> r2 ∈ nt :: nts ->
       length (__iter__ r1) <> length (__iter__ r2) ->
       (exists i, offending (from_namedtuples (nt :: nts)) i) /\
       exists msg, validate (from_namedtuples (nt :: nts)) = Raise (MisalignedRows msg)) /\
  (forall (s : S) (ss : list S),
     from_serializable (s :: ss) = _fields s :: map serialize (s :: ss) /\
     forall r1 r2, r1 ∈ s :: ss -> r2 ∈ s :: ss ->
       length (serialize r1) <> length (serialize r2) ->
       (exists i, offending (from_serializable (s :: ss)) i) /\
       exists msg, validate (from_serializable (s :: ss)) = Raise (MisalignedRows msg)).
Proof.
  split.
  - intros nt nts.
    assert (Hgrid : from_namedtuples (nt :: nts)
                    = _fields nt :: map (fun r => map (fun i => py_str i) (__iter__ r)) (nt :: nts)).
    { unfold from_namedtuples. simpl. by rewrite from_namedtuples_loop_header. }
    split; [done|]. intros r1 r2 Hr1 Hr2 Hne. rewrite Hgrid.
    apply (validate_heterogeneous_rows _ _ _
             (map (fun i => py_str i) (__iter__ r1)) (map (fun i => py_str i) (__iter__ r2))).
    + apply (list_elem_of_fmap_2 (fun r => map (fun i => py_str i) (__iter__ r))) in Hr1. done.
    + apply (list_elem_of_fmap_2 (fun r => map (fun i => py_str i) (__iter__ r))) in Hr2. done.
    + by rewrite !length_map.
  - intros s ss.
    assert (Hgrid : from_serializable (s :: ss) = _fields s :: map serialize (s :: ss)).
    { unfold from_serializable. simpl. by rewrite from_serializable_loop_header. }
    split; [done|]. intros r1 r2 Hr1 Hr2 Hne. rewrite Hgrid.
    apply (validate_heterogeneous_rows _ _ _ (serialize r1) (serialize r2)).
    + apply (list_elem_of_fmap_2 serialize) in Hr1. done.
    + apply (list_elem_of_fmap_2 serialize) in Hr2. done.
    + done.
Qed.

(** ** Identity of the lists of a built table *)

Lemma read_row_agree {Any : Type} (h h' : heap Any) (l : loc) (cells : list (value Any)) :
  h' !! l = h !! l -> read_row h l = Some cells -> read_row h' l = Some cells.
Proof. unfold read_row. by intros ->. Qed.

Lemma read_row_app {Any : Type} (h ext : heap Any) (l : loc) (cells : list (value Any)) :
  read_row h l = Some cells -> read_row (h ++ ext) l = Some cells.
Proof.
  unfold read_row. destruct (h !! l) as [o|] eqn:Hl; [|done].
  by rewrite (lookup_app_l_Some _ _ _ _ Hl).
Qed.

Lemma read_row_lt {Any : Type} (h : heap Any) (l : loc) (cells : list (value Any)) :
  read_row h l = Some cells -> l < length h.
Proof.
  unfold read_row. destruct (h !! l) as [o|] eqn:Hl; [|done].
  intros _. by eapply lookup_lt_Some.
Qed.

Lemma mapM_read_row_app {Any : Type} (h ext : heap Any) (items : list loc)
    (rows : list (list (value Any))) :
  mapM (read_row h) items = Some rows -> mapM (read_row (h ++ ext)) items = Some rows.
Proof.
  rewrite !mapM_Some. intros Hrows.
  eapply Forall2_impl; [exact Hrows|]. intros l cells. apply read_row_app.
Qed.

Lemma copy_rows_spec {Any : Type} `{PyStr Any} (items : list loc) :
  forall (h : heap Any) (rows : list (list (value Any))),
    mapM (read_row h) items = Some rows ->
    copy_rows h items = Some (h ++ copied_rows rows, seq (length h) (length rows)).
Proof.
  induction items as [|r items IH]; intros h rows Hrows.
  - injection Hrows as <-. simpl. by rewrite app_nil_r.
  - apply mapM_Some in Hrows.
    apply Forall2_cons_inv_l in Hrows as (cells & rows' & Hr & Hrows & ->).
    apply mapM_Some in Hrows.
    simpl. rewrite Hr. simpl.
    rewrite (IH _ rows') by (by apply mapM_read_row_app). simpl.
    rewrite length_app, <- app_assoc. simpl.
    by replace (length h + 1) with (S (length h)) by lia.
Qed.

(** The heap and the table [from_2d_iterable] returns: after the objects
    that were there, one new row object per input row, then the new list of
    rows, which the table refers to. *)
Lemma from_2d_iterable_result {Any : Type} `{PyStr Any} (h : heap Any) (iters : loc)
    (input : list (list (value Any))) :
  read_2d h iters = Some input ->
  from_2d_iterable h iters
  = Some (h ++ copied_rows input ++ [Rows (seq (length h) (length input))],
          {| data := length h + length input |}).
Proof.
  unfold read_2d, from_2d_iterable. destruct (read_rows h iters) as [items|]; [|done]. simpl.
  intros Hrows. rewrite (copy_rows_spec items h input Hrows). simpl. unfold __init__.
  rewrite length_app, <- app_assoc. unfold copied_rows at 2. by rewrite length_fmap.
Qed.

Lemma mapM_as_str_strs {Any : Type} (f : value Any -> string) (cells : list (value Any)) :
  mapM (@as_str Any) (map (fun cell => VStr (f cell)) cells) = Some (map f cells).
Proof.
  apply mapM_Some. induction cells as [|cell cells IH]; simpl; constructor; done.
Qed.

(** Reading a table depends only on its own list objects. *)
Lemma table_data_built {Any : Type} `{PyStr Any} (n : nat) (input : list (list (value Any)))
    (h'' : heap Any) :
  (forall i, i <= length input ->
     h'' !! (n + i) = (copied_rows input ++ [Rows (seq n (length input))]) !! i) ->
  table_data h'' {| data := n + length input |} = Some (str_cells input).
Proof.
  intros Hnew. unfold table_data, read_2d, read_rows. simpl.
  rewrite (Hnew (length input)) by lia.
  rewrite list_lookup_middle by (unfold copied_rows; by rewrite length_fmap). simpl.
  assert (Hrows : mapM (read_row h'') (seq n (length input))
                  = Some ((fun cells : list (value Any) => str_value <$> cells) <$> input)).
  { apply mapM_Some. apply Forall2_same_length_lookup_2.
    - by rewrite length_seq, length_fmap.
    - intros i l row Hl Hrow. apply lookup_seq in Hl as [-> Hi].
      unfold read_row. rewrite (Hnew i) by lia.
      rewrite lookup_app_l by (unfold copied_rows; rewrite length_fmap; lia).
      change (copied_rows input !! i) with ((copy_row <$> input) !! i).
      rewrite list_lookup_fmap in Hrow. rewrite list_lookup_fmap.
      destruct (input !! i) as [cells|]; simpl in *; [|done].
      unfold copy_row. exact Hrow. }
  rewrite Hrows. simpl.
  apply mapM_Some. unfold str_cells.
  apply Forall2_fmap. apply Forall_Forall2_diag, Forall_forall. intros cells _.
  apply (mapM_as_str_strs (fun cell : value Any => py_str cell)).
Qed.

(** Reading the caller's list of lists depends only on the objects that
    were there before the table was built. *)
Lemma read_2d_agree {Any : Type} (h h'' : heap Any) (iters : loc)
    (input : list (list (value Any))) :
  (forall l, l < length h -> h'' !! l = h !! l) ->
  read_2d h iters = Some input -> read_2d h'' iters = Some input.
Proof.
  intros Hold. unfold read_2d, read_rows.
  destruct (h !! iters) as [o|] eqn:Hiters; [|done].
  rewrite (Hold iters) by (by eapply lookup_lt_Some). rewrite Hiters.
  destruct o as [cells|items]; [done|]. simpl.
  rewrite !mapM_Some. intros Hrows.
  eapply Forall2_impl; [exact Hrows|]. intros l cells Hl. simpl in Hl.
  eapply read_row_agree; [|exact Hl]. apply Hold. eapply read_row_lt. exact Hl.
Qed.

(** C4. [from_2d_iterable], given a list of lists, returns a table whose
    data is the list, row by row and in order, of the strings of the cells of
    the input, so that the first input row is the header.  The lists of the
    table are new objects: the builder leaves every object that was there as
    it was, the table is read the same after any later change to those
    objects (the caller's lists among them), and the caller's input is read
    the same after any later change to the lists of the table. *)
Theorem from_2d_iterable_fresh_copy {Any : Type} `{PyStr Any} (h : heap Any) (iters : loc)
    (input : list (list (value Any))) :
  read_2d h iters = Some input ->
  exists h' self,
    from_2d_iterable h iters = Some (h', self) /\
    table_data h' self = Some (str_cells input) /\
    (forall l, l < length h -> h' !! l = h !! l) /\
    Forall (fun l => length h <= l < length h') (footprint h' (data self)) /\
    (forall h'', (forall l, length h <= l < length h' -> h'' !! l = h' !! l) ->
       table_data h'' self = Some (str_cells input)) /\
    (forall h'', (forall l, l < length h -> h'' !! l = h' !! l) ->
       read_2d h'' iters = Some input).
Proof.
  intros Hinput.
  set (new := copied_rows input ++ [Rows (seq (length h) (length input))]).
  assert (Hnewlen : length new = S (length input)).
  { unfold new, copied_rows. rewrite length_app, length_fmap. simpl. lia. }
  exists (h ++ new), {| data := length h + length input |}.
  assert (Hold : forall l, l < length h -> (h ++ new) !! l = h !! l).
  { intros l Hl. by apply lookup_app_l. }
  assert (Hframe : forall h'' : heap Any,
             (forall l, length h <= l < length (h ++ new) -> h'' !! l = (h ++ new) !! l) ->
             table_data h'' {| data := length h + length input |} = Some (str_cells input)).
  { intros h'' Hagree. apply table_data_built. intros i Hi.
    rewrite Hagree by (rewrite length_app; lia).
    rewrite lookup_app_r by lia. f_equal. lia. }
  split; [by apply from_2d_iterable_result|].
  split; [by apply Hframe|].
  split; [exact Hold|].
  split; [|split; [exact Hframe|]].
  - unfold footprint, read_rows. simpl.
    replace (length h + length input) with (length h + length (copied_rows input))
      by (unfold copied_rows; by rewrite length_fmap).
    rewrite lookup_app_r by lia.
    replace (length h + length (copied_rows input) - length h)
      with (length (copied_rows input)) by lia.
    unfold new. rewrite list_lookup_middle by done. simpl.
    fold new. rewrite length_app, Hnewlen. unfold copied_rows. rewrite length_fmap.
    constructor; [lia|]. apply Forall_forall. intros l Hl.
    apply elem_of_seq in Hl. lia.
  - intros h'' Hagree. apply (read_2d_agree h); [|done].
    intros l Hl. rewrite Hagree by done. by apply Hold.
Qed.

Lemma from_2d_iterable_fresh_copy_witness :
  exists h' self,
    from_2d_iterable simple_heap 3 = Some (h', self) /\
    table_data h' self = Some (str_cells simple_input) /\
    (forall l, l < length simple_heap -> h' !! l = simple_heap !! l) /\
    Forall (fun l => length simple_heap <= l < length h') (footprint h' (data self)) /\
    (forall h'', (forall l, length simple_heap <= l < length h' -> h'' !! l = h' !! l) ->
       table_data h'' self = Some (str_cells simple_input)) /\
    (forall h'', (forall l, l < length simple_heap -> h'' !! l = h' !! l) ->
       read_2d h'' 3 = Some simple_input).
Proof. apply (from_2d_iterable_fresh_copy simple_heap 3 simple_input). reflexivity. Defined.

(** [test_init_no_copy]: a table made by [__init__] shares the caller's
    lists, a later assignment to one of them shows in the table. *)
Example test_init_no_copy :
  (h1 ← setitem constants_heap 1 0 (VStr "tau"); table_data h1 (__init__ 3))
  = Some [["constant"; "value"]; ["tau"; "6.28"]; ["e"; "2.71"]].
Proof. reflexivity. Qed.

(** [test_from_2d_iterable_copies]: the same assignment after
    [from_2d_iterable] does not show in the table. *)
Example test_from_2d_iterable_copies :
  ('(h1, t) ← from_2d_iterable constants_heap 3;
   h2 ← setitem h1 1 0 (VStr "tau");
   table_data h2 t)
  = Some [["constant"; "value"]; ["pi"; "6.28"]; ["e"; "2.71"]].
Proof. reflexivity. Qed.

(** C2. The grid built by [from_2d_iterable] from the rectangular input
    [[["foo","bar"],["spam","eggs"],["hello","world"]]] holds those rows, and
    rendering it returns exactly the four lines of the specification's first
    example, each ended by a line feed. *)
Theorem render_simple_grid :
  ('(h', self) ← from_2d_iterable simple_heap 3; table_data h' self) = Some simple_grid /\
  __str__ simple_grid
  = Ok ("|  foo  |  bar  |" +:+ LF +:+
        "|-------|-------|" +:+ LF +:+
        "| spam  | eggs  |" +:+ LF +:+
        "| hello | world |" +:+ LF).
Proof. split; reflexivity. Qed.

(** [test_init_simple]: what [print] writes for that grid. *)
Example test_init_simple :
  print_default simple_grid ""
  = ("|  foo  |  bar  |" +:+ LF +:+
     "|-------|-------|" +:+ LF +:+
     "| spam  | eggs  |" +:+ LF +:+
     "| hello | world |" +:+ LF, Ok tt).
Proof. reflexivity. Qed.

Lemma record_builders_heterogeneous_witness :
  (exists msg,
     validate (from_namedtuples [Measurement "foo" "0.253"; Measurement "bar" "0.2137";
                                 EnhancesMeasurement "baz" "0.111" "69"])
     = Raise (MisalignedRows msg)) /\
  (exists msg,
     validate (from_serializable [Measurement_serializable "foo" "25.3%";
                                  Measurement_serializable "bar" "21.4%";
                                  EnhancesMeasurement_serializable "baz" "11.1%" "069"])
     = Raise (MisalignedRows msg)).
Proof.
  split.
  - refine (proj2 (proj2 (proj1 (record_builders_heterogeneous (S := serializable))
              (Measurement "foo" "0.253") _)
              (Measurement "foo" "0.253") (EnhancesMeasurement "baz" "0.111" "69") _ _ _)).
    + by left.
    + right. right. by left.
    + simpl. lia.
  - refine (proj2 (proj2 (proj2 (record_builders_heterogeneous (R := namedtuple string))
              (Measurement_serializable "foo" "25.3%") _)
              (Measurement_serializable "foo" "25.3%")
              (EnhancesMeasurement_serializable "baz" "11.1%" "069") _ _ _)).
    + by left.
    + right. right. by left.
    + simpl. lia.
Defined.

Example test_from_namedtuple_misaligned :
  validate (from_namedtuples [Measurement "foo" "0.253"; Measurement "bar" "0.2137";
                              EnhancesMeasurement "baz" "0.111" "69"])
  = Raise (MisalignedRows "expected 2 cells, violated by rows 3").
Proof. vm_compute. reflexivity. Qed.

Example test_from_dicts_key_error_on_missing_key :
  from_dicts [[("constant", "e"); ("value", "2.71")];
              [("constant", "pi"); ("value", "3.14")];
              [("constant", "sqrt2")]]
  = Raise (KeyError "value").
Proof. reflexivity. Qed.

Example test_from_dicts_ingores_additional_keys :
  from_dicts [[("constant", "e"); ("value", "2.71")];
              [("constant", "pi"); ("value", "3.14"); ("alt_name", "half tau")]]
  = Ok [["constant"; "value"]; ["e"; "2.71"]; ["pi"; "3.14"]].
Proof. reflexivity. Qed.

Example test_validate_misaligned_rows :
  validate [["constant"; "value"]; ["pi"; "6.28"]; ["e"]]
  = Raise (MisalignedRows "expected 2 cells, violated by rows 2").
Proof. vm_compute. reflexivity. Qed.

Example validate_lists_every_misaligned_row :
  validate [["a"; "b"]; ["c"]; ["d"; "e"]; []; ["f"; "g"; "h"]]
  = Raise (MisalignedRows "expected 2 cells, violated by rows 1, 3, 4").
Proof. vm_compute. reflexivity. Qed.

Example center_odd_width : center "ab" 5 = "  ab ".
Proof. reflexivity. Qed.

Example center_even_width : center "abc" 6 = " abc  ".
Proof. reflexivity. Qed.

(** * Further properties of the code *)

(** ** The renderer on arbitrary grids *)

(** The text of a grid that passes validation: the header row, the separator
    row and one data row per row after the header, in that order, each ended
    by a line feed; the columns are as wide as their longest cell. *)
Theorem render_valid (data : list (list string)) :
  validate data = Ok tt ->
  exists header rows,
    data = header :: rows /\
    __str__ data
    = Ok (lines (header_row Nat.odd header (column_widths data)
                 :: separator_row (column_widths data)
                 :: map (data_row (column_widths data)) rows)).
Proof.
  intros Hok. destruct (validate_Ok_rect data Hok) as (header & row & rows & -> & Hrect).
  exists header, (row :: rows). split; [done|]. by apply render_rect.
Qed.

Lemma render_valid_witness :
  exists header rows,
    simple_grid = header :: rows /\
    __str__ simple_grid
    = Ok (lines (header_row Nat.odd header (column_widths simple_grid)
                 :: separator_row (column_widths simple_grid)
                 :: map (data_row (column_widths simple_grid)) rows)).
Proof. apply (render_valid simple_grid). reflexivity. Defined.

(** The sizes computed by lines 87-90 on a rectangular grid: one per header
    cell, each the greatest length among the cells of its column, the header
    cell included. *)
Theorem col_sizes_are_maxima (header : list string) (rows : list (list string)) :
  Forall (fun row => length row = length header) rows ->
  exists col_sizes,
    col_sizes_of (header :: rows) = Ok col_sizes /\
    length col_sizes = length header /\
    forall j w, col_sizes !! j = Some w ->
      (forall row cell, row ∈ header :: rows -> row !! j = Some cell -> String.length cell <= w) /\
      (exists row cell, row ∈ header :: rows /\ row !! j = Some cell /\ String.length cell = w).
Proof.
  intros Hrect. exists (column_widths (header :: rows)).
  split; [by apply col_sizes_of_rect|]. split; [apply length_column_widths|].
  intros j w Hw. unfold column_widths in Hw.
  rewrite list_lookup_fmap in Hw.
  destruct (seq 0 (length header) !! j) as [j'|] eqn:Hj; [|done].
  apply lookup_seq in Hj as [-> Hj]. simpl in Hw. injection Hw as <-.
  split.
  - intros row cell. apply column_width_upper.
  - apply column_width_attained.
    destruct (lookup_lt_is_Some_2 header j Hj) as [cell Hcell].
    by rewrite (column_cons_Some _ _ _ _ Hcell).
Qed.

Lemma col_sizes_are_maxima_witness :
  exists col_sizes,
    col_sizes_of [["ab"; "c"]; ["d"; "efg"]] = Ok col_sizes /\
    length col_sizes = 2 /\
    forall j w, col_sizes !! j = Some w ->
      (forall row cell, row ∈ [["ab"; "c"]; ["d"; "efg"]] -> row !! j = Some cell ->
         String.length cell <= w) /\
      (exists row cell, row ∈ [["ab"; "c"]; ["d"; "efg"]] /\ row !! j = Some cell /\
         String.length cell = w).
Proof.
  apply (col_sizes_are_maxima ["ab"; "c"] [["d"; "efg"]]).
  repeat constructor.
Defined.

Lemma zip_star_nonempty {A : Type} (data : list (list A)) (col : list A) :
  col ∈ zip_star data -> col <> [].
Proof.
  destruct data as [|r [|r' rs]]; simpl.
  - intros Hin. inversion Hin.
  - intros Hin. apply list_elem_of_fmap in Hin as (c & -> & _). done.
  - intros Hin. apply elem_of_zip_with in Hin as (c & col' & -> & _ & _). done.
Qed.

(** [zip] stops at the shortest row. *)
Lemma zip_star_length_le {A : Type} (data : list (list A)) (row : list A) :
  row ∈ data -> length (zip_star data) <= length row.
Proof.
  induction data as [|r rs IH]; intros Hin; [inversion Hin|].
  destruct rs as [|r' rs'].
  - apply list_elem_of_singleton in Hin as ->. simpl. by rewrite length_map.
  - change (zip_star (r :: r' :: rs')) with (zip_with cons r (zip_star (r' :: rs'))).
    rewrite length_zip_with.
    apply elem_of_cons in Hin as [-> | Hin]; [lia|]. specialize (IH Hin). lia.
Qed.

(** Lines 87-90 never raise: no column [zip] yields is empty. *)
Lemma col_sizes_of_Ok (data : list (list string)) :
  exists col_sizes,
    col_sizes_of data = Ok col_sizes /\ length col_sizes = length (zip_star data).
Proof.
  exists (map (fun col => foldr Nat.max 0 (map String.length col)) (zip_star data)).
  split; [|by rewrite length_map].
  unfold col_sizes_of. apply traverse_Ok_map. intros col Hcol.
  apply zip_star_nonempty in Hcol. destruct col as [|cell col]; [done|]. simpl.
  by rewrite foldl_max_foldr.
Qed.

Lemma pad_cells_from_raises (pad : string -> nat -> string) (col_sizes : list nat)
    (row : list string) :
  forall start, start <= length col_sizes -> length col_sizes < start + length row ->
    traverse (fun '(col_idx, cell) =>
                col_size ← getitem col_sizes col_idx; Ok (pad cell col_size))
             (enumerate start row)
    = Raise IndexError.
Proof.
  induction row as [|cell row IH]; intros start Hstart Hlen; simpl in *; [lia|].
  destruct (col_sizes !! start) as [w|] eqn:Hw.
  - apply lookup_lt_Some in Hw as Hlt.
    rewrite (getitem_Some _ _ _ Hw). simpl. rewrite IH by lia. done.
  - rewrite (getitem_None _ _ Hw). done.
Qed.

(** A row with a cell beyond the computed sizes raises [IndexError]. *)
Lemma pad_cells_raises (pad : string -> nat -> string) (col_sizes : list nat) (row : list string) :
  length col_sizes < length row -> pad_cells pad col_sizes row = Raise IndexError.
Proof. intros Hlen. unfold pad_cells. apply pad_cells_from_raises; lia. Qed.

Lemma add_data_rows_raises (col_sizes : list nat) (rows : list (list string)) :
  Exists (fun row => length col_sizes < length row) rows ->
  forall x, add_data_rows col_sizes x rows = Raise IndexError.
Proof.
  induction rows as [|row rows IH]; intros Hex x; [inversion Hex|]. simpl.
  destruct (decide (length row <= length col_sizes)) as [Hle|Hgt].
  - rewrite pad_cells_ok by done. rewrite result_bind_Ok. apply IH.
    apply Exists_cons in Hex as [Hrow | Hrows]; [lia|done].
  - rewrite pad_cells_raises by lia. done.
Qed.

Lemma str_cons (header : list string) (rows : list (list string)) :
  __str__ (header :: rows)
  = col_sizes ← col_sizes_of (header :: rows);
    cells ← pad_cells (fun cell col_size => center cell (col_size + 2)) col_sizes header;
    add_data_rows col_sizes
      (("" +:+ "|" +:+ join "|" cells +:+ "|" +:+ LF)
       +:+ "|" +:+ join "|" (map (fun col_size => str_mul "-" (col_size + 2)) col_sizes)
       +:+ "|" +:+ LF)
      rows.
Proof. reflexivity. Qed.

(** The renderer returns a text exactly on the grids that have a header and
    whose rows all have as many cells as the header (a header alone will do);
    on every other grid, the empty one included, it raises [IndexError].  It
    never raises anything else: [max] is never given an empty column. *)
Theorem str_succeeds_iff_rectangular (data : list (list string)) :
  ((exists text, __str__ data = Ok text) <->
     exists header rows,
       data = header :: rows /\ Forall (fun row => length row = length header) rows) /\
  (forall e, __str__ data = Raise e -> e = IndexError).
Proof.
  destruct data as [|header rows].
  - split.
    + split; [intros [text Ht]; discriminate | intros (header & rows & Hd & _); discriminate].
    + intros e [= <-]. done.
  - destruct (decide (Forall (fun row => length row = length header) rows)) as [Hrect|Hnot].
    + rewrite render_rect by done. split.
      * split; [intros _; by exists header, rows | intros _; by eexists].
      * intros e He. discriminate.
    + assert (Hraise : __str__ (header :: rows) = Raise IndexError).
      { rewrite str_cons.
        destruct (col_sizes_of_Ok (header :: rows)) as (col_sizes & -> & Hlen).
        rewrite result_bind_Ok.
        assert (Hshort : forall row, row ∈ header :: rows -> length col_sizes <= length row).
        { intros row Hrow. rewrite Hlen. by apply zip_star_length_le. }
        destruct (decide (length header <= length col_sizes)) as [Hle|Hgt].
        - rewrite pad_cells_ok by done. rewrite result_bind_Ok.
          apply add_data_rows_raises.
          apply not_Forall_Exists in Hnot; [|intros row; apply _].
          apply Exists_exists in Hnot as (row & Hin & Hne). simpl in Hne.
          apply Exists_exists. exists row. split; [done|].
          pose proof (Hshort header ltac:(by left)).
          pose proof (Hshort row ltac:(by right)). lia.
        - rewrite pad_cells_raises by lia. done. }
      rewrite Hraise. split.
      * split; [intros [text Ht]; discriminate|].
        intros (header' & rows' & [= <- <-] & Hrect). done.
      * intros e [= <-]. done.
Qed.

(** ** Alignment of the rendered lines *)

Lemma length_append (s1 s2 : string) :
  String.length (s1 +:+ s2) = String.length s1 + String.length s2.
Proof.
  induction s1 as [|c s1 IH]; [done|].
  change (S (String.length (s1 +:+ s2)) = S (String.length s1 + String.length s2)).
  by rewrite IH.
Qed.

Lemma length_str_mul (s : string) (n : nat) :
  String.length (str_mul s n) = n * String.length s.
Proof. induction n as [|n IH]; [done|]. simpl. rewrite length_append, IH. done. Qed.

Lemma length_center_split (extra_on_left : bool) (s : string) (width : nat) :
  String.length s <= width -> String.length (center_split extra_on_left s width) = width.
Proof.
  intros Hle. unfold center_split. cbv zeta.
  pose proof (Nat.div_mod_eq (width - String.length s) 2).
  pose proof (Nat.mod_upper_bound (width - String.length s) 2).
  destruct extra_on_left; rewrite !length_append, !length_str_mul;
    change (String.length " ") with 1; lia.
Qed.

Lemma length_ljust (s : string) (width : nat) :
  String.length s <= width -> String.length (ljust s width) = width.
Proof.
  intros Hle. unfold ljust. destruct (Nat.leb_spec width (String.length s)); [lia|].
  rewrite length_append, length_str_mul. change (String.length " ") with 1. lia.
Qed.

(** The length of joined cells that each exceed their column width by [k]. *)
Lemma length_join_padded (sep : string) (k : nat) (padded : list string) (widths : list nat) :
  padded <> [] ->
  Forall2 (fun cell w => String.length cell = w + k) padded widths ->
  String.length (join sep padded) + String.length sep
  = foldr (fun w acc => w + k + String.length sep + acc) 0 widths.
Proof.
  intros Hne Hpad. induction Hpad as [|cell w padded widths Hcell Hpad IH]; [done|].
  destruct Hpad as [|cell' w' padded' widths' Hcell' Hpad'].
  - simpl. lia.
  - change (join sep (cell :: cell' :: padded'))
      with (cell +:+ sep +:+ join sep (cell' :: padded')).
    rewrite !length_append. simpl foldr in *. specialize (IH ltac:(done)). lia.
Qed.

Lemma table_width_sum (widths : list nat) :
  table_width widths = foldr (fun w acc => w + 3 + acc) 0 widths + 1.
Proof. unfold table_width. induction widths as [|w widths IH]; simpl; lia. Qed.

Lemma zip_with_padded (pad : string -> nat -> string) (k : nat)
    (row : list string) (widths : list nat) :
  (forall cell w, String.length cell <= w -> String.length (pad cell w) = w + k) ->
  Forall2 (fun cell w => String.length cell <= w) row widths ->
  Forall2 (fun cell w => String.length cell = w + k) (zip_with pad row widths) widths.
Proof.
  intros Hpad Hfit. induction Hfit as [|cell w row widths Hcell Hfit IH]; simpl; constructor; auto.
Qed.

(** In a rectangular grid every cell of a row fits in its column. *)
Lemma row_fits_columns (header : list string) (rows : list (list string)) (row : list string) :
  Forall (fun r => length r = length header) rows ->
  row ∈ header :: rows ->
  Forall2 (fun cell w => String.length cell <= w) row (column_widths (header :: rows)).
Proof.
  intros Hrect Hin.
  assert (Hlen : length row = length header).
  { apply elem_of_cons in Hin as [-> | Hin]; [done|].
    rewrite Forall_forall in Hrect. by apply Hrect. }
  apply Forall2_same_length_lookup_2.
  - by rewrite length_column_widths.
  - intros j cell w Hcell Hw. unfold column_widths in Hw.
    rewrite list_lookup_fmap in Hw.
    destruct (seq 0 (length header) !! j) as [j'|] eqn:Hj; [|done].
    apply lookup_seq in Hj as [-> Hj]. simpl in Hw. injection Hw as <-.
    by eapply column_width_upper.
Qed.

(** The lines of a rendered table with at least one column are aligned: the
    header row, the separator row and every data row have the same number of
    characters, three more than its width for each column, and one. *)
Theorem rendered_lines_same_length (header : list string) (rows : list (list string)) :
  validate (header :: rows) = Ok tt ->
  header <> [] ->
  let widths := column_widths (header :: rows) in
  let rendered := header_row Nat.odd header widths
                  :: separator_row widths :: map (data_row widths) rows in
  __str__ (header :: rows) = Ok (lines rendered) /\
  length rendered = S (length (header :: rows)) /\
  Forall (fun line => String.length line = table_width widths) rendered.
Proof.
  intros Hok Hne widths rendered.
  destruct (validate_Ok_rect _ Hok) as (header' & row & rows' & [= <- ->] & Hrect).
  split; [by apply render_rect|]. split; [subst rendered; simpl; by rewrite length_map|].
  assert (Hwne : widths <> []).
  { intros Hnil. apply (f_equal length) in Hnil. subst widths.
    rewrite length_column_widths in Hnil. by destruct header. }
  assert (Hfit : forall r, r ∈ header :: row :: rows' ->
                   Forall2 (fun cell w => String.length cell <= w) r widths).
  { intros r Hr. by apply row_fits_columns. }
  assert (Hdata : forall r, r ∈ header :: row :: rows' ->
                    String.length (data_row widths r) = table_width widths).
  { intros r Hr. specialize (Hfit r Hr). unfold data_row.
    assert (Hz : zip_with ljust r widths <> []).
    { destruct Hfit; [done|]. simpl. done. }
    pose proof (length_join_padded " | " 0 _ _ Hz
                  (zip_with_padded ljust 0 r widths
                     ltac:(intros; rewrite length_ljust by done; lia) Hfit)) as Hj.
    rewrite !length_append, table_width_sum. simpl String.length in *.
    assert (Hsum : foldr (fun w acc => w + 0 + 3 + acc) 0 widths
                   = foldr (fun w acc => w + 3 + acc) 0 widths).
    { clear. induction widths as [|w ws IH]; simpl; [done|]. rewrite IH. lia. }
    lia. }
  subst rendered. apply Forall_cons_2; [|apply Forall_cons_2].
  - specialize (Hfit header ltac:(by left)). unfold header_row.
    assert (Hz : zip_with (fun cell w => center_split (Nat.odd (w + 2)) cell (w + 2))
                   header widths <> []).
    { destruct Hfit; [done|]. simpl. done. }
    pose proof (length_join_padded "|" 2 _ _ Hz
                  (zip_with_padded
                     (fun cell w => center_split (Nat.odd (w + 2)) cell (w + 2)) 2
                     header widths
                     ltac:(intros; cbv beta; rewrite length_center_split by lia; lia)
                     Hfit)) as Hj.
    rewrite !length_append, table_width_sum. simpl String.length in *.
    assert (Hsum : foldr (fun w acc => w + 2 + 1 + acc) 0 widths
                   = foldr (fun w acc => w + 3 + acc) 0 widths).
    { clear. induction widths as [|w ws IH]; simpl; [done|]. rewrite IH. lia. }
    lia.
  - unfold separator_row.
    assert (Hz : map (fun w => str_mul "-" (w + 2)) widths <> []) by (by destruct widths).
    assert (Hsep : Forall2 (fun cell w => String.length cell = w + 2)
                     (map (fun w => str_mul "-" (w + 2)) widths) widths).
    { clear. induction widths as [|w ws IH]; simpl; constructor; [|done].
      rewrite length_str_mul. simpl. lia. }
    pose proof (length_join_padded "|" 2 _ _ Hz Hsep) as Hj.
    rewrite !length_append, table_width_sum. simpl String.length in *.
    assert (Hsum : foldr (fun w acc => w + 2 + 1 + acc) 0 widths
                   = foldr (fun w acc => w + 3 + acc) 0 widths).
    { clear. induction widths as [|w ws IH]; simpl; [done|]. rewrite IH. lia. }
    lia.
  - apply Forall_forall. intros line Hline.
    apply list_elem_of_fmap in Hline as (r & -> & Hr). apply Hdata. by right.
Qed.

Lemma rendered_lines_same_length_witness :
  let widths := column_widths simple_grid in
  let rendered := header_row Nat.odd ["foo"; "bar"] widths
                  :: separator_row widths
                  :: map (data_row widths) [["spam"; "eggs"]; ["hello"; "world"]] in
  __str__ simple_grid = Ok (lines rendered) /\
  length rendered = 4 /\
  Forall (fun line => String.length line = table_width widths) rendered.
Proof.
  apply (rendered_lines_same_length ["foo"; "bar"] [["spam"; "eggs"]; ["hello"; "world"]]).
  - reflexivity.
  - discriminate.
Defined.

(** ** The builders and validation *)

(** What the mapping-sequence builder returns never has a misaligned row:
    for no mapping it is the empty grid, and otherwise it is a header and one
    row per mapping, each as long as the header, which passes validation. *)
Theorem from_dicts_never_misaligned {Any : Type} `{PyStr Any}
    (dicts : list (dict Any)) (data : list (list string)) :
  from_dicts dicts = Ok data ->
  (dicts = [] /\ data = []) \/
  (dicts <> [] /\ length data = S (length dicts) /\ validate data = Ok tt).
Proof.
  destruct dicts as [|d ds]; intros Hdata.
  - left. injection Hdata as <-. done.
  - right. split; [done|].
    apply from_dicts_Ok in Hdata as (rows & -> & Hrows).
    assert (Hlen : Forall (fun row => length row = length (keys d)) rows).
    { apply Forall_forall. intros row Hrow.
      apply list_elem_of_lookup in Hrow as [i Hi].
      destruct (Forall2_lookup_r _ _ _ _ _ Hrows Hi) as (d' & _ & Hd').
      symmetry. exact (Forall2_length _ _ _ Hd'). }
    apply Forall2_length in Hrows as Hcount. simpl in Hcount.
    split; [simpl; lia|].
    destruct rows as [|row rows]; [discriminate|]. by apply validate_rect_Ok.
Qed.

Lemma from_dicts_never_misaligned_witness :
  ([[("constant", "e"); ("value", "2.71")]; [("value", "3.14"); ("constant", "pi")]] = []
   /\ [["constant"; "value"]; ["e"; "2.71"]; ["pi"; "3.14"]] = []) \/
  ([[("constant", "e"); ("value", "2.71")]; [("value", "3.14"); ("constant", "pi")]] <> []
   /\ length [["constant"; "value"]; ["e"; "2.71"]; ["pi"; "3.14"]] = 3
   /\ validate [["constant"; "value"]; ["e"; "2.71"]; ["pi"; "3.14"]] = Ok tt).
Proof.
  apply (from_dicts_never_misaligned
           [[("constant", "e"); ("value", "2.71")]; [("value", "3.14"); ("constant", "pi")]]).
  reflexivity.
Defined.

Lemma traverse_first_Raise {A B : Type} (f : A -> result B) (l1 l2 : list A) (x : A) (e : exn) :
  Forall (fun y => exists z, f y = Ok z) l1 ->
  f x = Raise e ->
  traverse f (l1 ++ x :: l2) = Raise e.
Proof.
  intros Hl1 Hx. induction Hl1 as [|y l1 [z Hy] Hl1 IH]; simpl.
  - by rewrite Hx.
  - by rewrite Hy, IH.
Qed.

Lemma row_of_dict_total {Any : Type} `{PyStr Any} (header : list string) (d : dict Any) :
  (forall k, k ∈ header -> dict_contains d k = true) ->
  exists row, row_of_dict header d = Ok row.
Proof.
  intros Hall. destruct (row_of_dict header d) as [row|e] eqn:Hrow; [by eexists|].
  apply row_of_dict_Raise in Hrow as (k & Hk & Hlacks & _).
  rewrite (Hall k Hk) in Hlacks. discriminate.
Qed.

(** The [KeyError] the mapping-sequence builder raises names the first
    header key, in header order, that the first incomplete mapping, in input
    order, lacks. *)
Theorem from_dicts_first_missing_key {Any : Type} `{PyStr Any}
    (d : dict Any) (complete : list (dict Any)) (d' : dict Any) (rest : list (dict Any))
    (found : list string) (k : string) (later : list string) :
  keys d = found ++ k :: later ->
  Forall (fun g => forall k', k' ∈ keys d -> dict_contains g k' = true) complete ->
  Forall (fun k' => dict_contains d' k' = true) found ->
  dict_contains d' k = false ->
  from_dicts (d :: complete ++ d' :: rest) = Raise (KeyError k).
Proof.
  intros Hkeys Hcomplete Hfound Hlacks. rewrite from_dicts_cons.
  change (d :: complete ++ d' :: rest) with ((d :: complete) ++ d' :: rest).
  rewrite (traverse_first_Raise _ _ _ _ (KeyError k)); [done| |].
  - apply Forall_cons_2.
    + apply row_of_dict_total. intros k' Hk'. by apply dict_contains_keys.
    + eapply Forall_impl; [exact Hcomplete|]. intros g Hg. by apply row_of_dict_total.
  - unfold row_of_dict. rewrite Hkeys. apply traverse_first_Raise.
    + eapply Forall_impl; [exact Hfound|]. intros k' Hk'. simpl in Hk'.
      destruct (dict_getitem_contains d' k' Hk') as [v ->]. by eexists.
    + by rewrite (dict_getitem_lacks d' k Hlacks).
Qed.

Lemma from_dicts_first_missing_key_witness :
  from_dicts ([("a", "1"); ("b", "2"); ("c", "3")]
              :: [[("c", "6"); ("b", "5"); ("a", "4")]] ++ [("a", "7")] :: [[("b", "8")]])
  = Raise (KeyError "b").
Proof.
  apply (from_dicts_first_missing_key _ _ _ _ ["a"] "b" ["c"]).
  - reflexivity.
  - apply Forall_cons_2; [|constructor]. intros k' Hk'.
    apply list_elem_of_In in Hk'. simpl in Hk'.
    destruct Hk' as [<- | [<- | [<- | []]]]; reflexivity.
  - apply Forall_cons_2; [reflexivity | constructor].
  - reflexivity.
Defined.

Lemma traverse_ext_in {A B : Type} (f g : A -> result B) (l : list A) :
  (forall x, x ∈ l -> f x = g x) -> traverse f l = traverse g l.
Proof.
  induction l as [|x l IH]; intros Hfg; simpl; [done|].
  rewrite (Hfg x) by (by left). rewrite IH by (intros y Hy; apply Hfg; by right). done.
Qed.

(** The mapping-sequence builder reads the later mappings under the header
    keys only: two inputs with the same first mapping, whose later mappings
    agree on every header key, give the same outcome, whatever other keys
    the mappings hold. *)
Theorem from_dicts_header_keys_only {Any : Type} `{PyStr Any}
    (d : dict Any) (ds1 ds2 : list (dict Any)) :
  Forall2 (fun d1 d2 => forall k, k ∈ keys d -> dict_getitem d1 k = dict_getitem d2 k) ds1 ds2 ->
  from_dicts (d :: ds1) = from_dicts (d :: ds2).
Proof.
  intros Hagree. rewrite !from_dicts_cons. simpl.
  assert (Hrows : traverse (row_of_dict (keys d)) ds1 = traverse (row_of_dict (keys d)) ds2).
  { induction Hagree as [|d1 d2 ds1 ds2 Hd Hagree IH]; simpl; [done|].
    assert (Hrow : row_of_dict (keys d) d1 = row_of_dict (keys d) d2).
    { unfold row_of_dict. apply traverse_ext_in. intros k Hk. by rewrite (Hd k Hk). }
    by rewrite Hrow, IH. }
  by rewrite Hrows.
Qed.

Lemma from_dicts_header_keys_only_witness :
  from_dicts [[("constant", "e"); ("value", "2.71")];
              [("constant", "pi"); ("value", "3.14"); ("alt_name", "half tau")]]
  = from_dicts [[("constant", "e"); ("value", "2.71")];
                [("value", "3.14"); ("constant", "pi")]].
Proof.
  apply from_dicts_header_keys_only.
  apply Forall2_cons_2; [|constructor]. intros k Hk.
  apply list_elem_of_In in Hk. simpl in Hk.
  destruct Hk as [<- | [<- | []]]; reflexivity.
Defined.

Lemma from_namedtuples_cons {R Any : Type} `{NamedTupleLike R Any} `{PyStr Any}
    (nt : R) (nts : list R) :
  from_namedtuples (nt :: nts)
  = _fields nt :: map (fun r => map (fun i => py_str i) (__iter__ r)) (nt :: nts).
Proof. unfold from_namedtuples. simpl. by rewrite from_namedtuples_loop_header. Qed.

Lemma from_serializable_cons {R : Type} `{Serializable R} (nt : R) (nts : list R) :
  from_serializable (nt :: nts) = _fields nt :: map serialize (nt :: nts).
Proof. unfold from_serializable. simpl. by rewrite from_serializable_loop_header. Qed.

(** Validation of a grid made of a header and one row per record. *)
Lemma validate_rows_of_records {A R : Type} (header : list A) (cells : R -> list A)
    (r : R) (rs : list R) :
  (validate (header :: map cells (r :: rs)) = Ok tt <->
     Forall (fun x => length (cells x) = length header) (r :: rs)) /\
  (forall i, offending (header :: map cells (r :: rs)) i <->
     1 <= i /\ exists x, (r :: rs) !! (i - 1) = Some x /\ length (cells x) <> length header).
Proof.
  split.
  - split.
    + intros Hok. apply validate_Ok_rect in Hok as (h & row & rows & Heq & Hrect).
      simpl in Heq. injection Heq as <- <- <-.
      change (Forall (fun row => length row = length header) (map cells (r :: rs))) in Hrect.
      by apply Forall_fmap in Hrect.
    + intros Hall. simpl. apply validate_rect_Ok.
      change (Forall (fun row => length row = length header) (map cells (r :: rs))).
      by apply Forall_fmap.
  - intros i. unfold offending. split.
    + intros (Hi & h & row & Hh & Hrow & Hne). split; [done|].
      simpl in Hh. injection Hh as <-.
      destruct i as [|i]; [lia|]. simpl in Hrow.
      change ((cells <$> (r :: rs)) !! i = Some row) in Hrow.
      rewrite list_lookup_fmap in Hrow.
      replace (S i - 1) with i by lia.
      destruct ((r :: rs) !! i) as [x|]; [|done]. simpl in Hrow. injection Hrow as <-.
      by exists x.
    + intros (Hi & x & Hx & Hne). split; [done|].
      exists header, (cells x). split; [done|]. split; [|done].
      destruct i as [|i]; [lia|]. replace (S i - 1) with i in Hx by lia.
      change ((cells <$> (r :: rs)) !! i = Some (cells x)).
      by rewrite list_lookup_fmap, Hx.
Qed.

(** The grid a record-sequence builder makes of a non-empty input passes
    validation exactly when every record yields as many cells as the first
    record has fields; and the rows validation finds misaligned are the
    records that do not, each under its position in the input counted from 1. *)
Theorem record_builders_validate {R Any S : Type}
    `{NamedTupleLike R Any} `{PyStr Any} `{Serializable S} :
  (forall (nt : R) (nts : list R),
     (validate (from_namedtuples (nt :: nts)) = Ok tt <->
        Forall (fun r => length (__iter__ r) = length (_fields nt)) (nt :: nts)) /\
     (forall i, offending (from_namedtuples (nt :: nts)) i <->
        1 <= i /\ exists r, (nt :: nts) !! (i - 1) = Some r /\
                            length (__iter__ r) <> length (_fields nt))) /\
  (forall (s : S) (ss : list S),
     (validate (from_serializable (s :: ss)) = Ok tt <->
        Forall (fun r => length (serialize r) = length (_fields s)) (s :: ss)) /\
     (forall i, offending (from_serializable (s :: ss)) i <->
        1 <= i /\ exists r, (s :: ss) !! (i - 1) = Some r /\
                            length (serialize r) <> length (_fields s))).
Proof.
  split.
  - intros nt nts. rewrite from_namedtuples_cons.
    destruct (validate_rows_of_records (_fields nt)
                (fun r => map (fun i => py_str i) (__iter__ r)) nt nts) as [Hv Ho].
    split.
    + rewrite Hv. apply Forall_iff. intros r. by rewrite length_map.
    + intros i. rewrite (Ho i).
      split; intros (Hi & r & Hr & Hne); (split; [done|]); exists r; (split; [done|]);
        by rewrite length_map in *.
  - intros s ss. rewrite from_serializable_cons.
    apply (validate_rows_of_records (_fields s) serialize s ss).
Qed.

(** The second record-sequence builder extends the first: on records whose
    [serialize] returns the strings of the values their iteration yields, and
    whose first one has the same fields under both protocols, the two
    builders return the same grid. *)
Theorem from_serializable_extends_from_namedtuples {R Any : Type}
    `{NamedTupleLike R Any} `{PyStr Any} `{Serializable R} (records : list R) :
  (forall r, r ∈ records ->
     @_fields R Serializable_fields r = @_fields R NamedTupleLike_fields r /\
     serialize r = map (fun i => py_str i) (__iter__ r)) ->
  from_serializable records = from_namedtuples records.
Proof.
  intros Hsame. destruct records as [|nt nts]; [done|].
  rewrite from_serializable_cons, from_namedtuples_cons.
  destruct (Hsame nt ltac:(by left)) as [-> _]. f_equal.
  apply list_eq. intros i.
  change (map serialize (nt :: nts)) with (serialize <$> (nt :: nts)).
  change (map (fun r : R => map (fun i => py_str i) (__iter__ r)) (nt :: nts))
    with ((fun r : R => map (fun i => py_str i) (__iter__ r)) <$> (nt :: nts)).
  rewrite !list_lookup_fmap.
  destruct ((nt :: nts) !! i) as [r|] eqn:Hr; [|done]. simpl.
  f_equal. apply Hsame. by eapply list_elem_of_lookup_2.
Qed.

Lemma from_serializable_extends_from_namedtuples_witness :
  @from_serializable _ namedtuple_as_serializable
    [Measurement "foo" "0.253"; EnhancesMeasurement "baz" "0.111" "69"]
  = from_namedtuples [Measurement "foo" "0.253"; EnhancesMeasurement "baz" "0.111" "69"].
Proof.
  apply (@from_serializable_extends_from_namedtuples (namedtuple string) string _ _
           namedtuple_as_serializable).
  intros r Hr. apply list_elem_of_In in Hr. simpl in Hr.
  destruct Hr as [<- | [<- | []]]; split; reflexivity.
Defined.

(** ** Sharing and copying of the caller's lists *)

Lemma as_str_py_str {Any : Type} `{PyStr Any} (v : value Any) (s : string) :
  as_str v = Some s -> py_str v = s.
Proof. destruct v; simpl; [|done]. by intros [= <-]. Qed.

Lemma str_cells_of_strs {Any : Type} `{PyStr Any} (input : list (list (value Any)))
    (grid : list (list string)) :
  mapM (mapM as_str) input = Some grid -> str_cells input = grid.
Proof.
  intros Hgrid. apply mapM_Some in Hgrid. unfold str_cells.
  induction Hgrid as [|cells row input grid Hrow Hgrid IH]; simpl; [done|].
  rewrite IH. f_equal.
  apply mapM_Some in Hrow. clear -Hrow.
  induction Hrow as [|v s cells row Hv Hrow IH]; simpl; [done|].
  by rewrite IH, (as_str_py_str v s Hv).
Qed.

(** On a list of lists of [str], [from_2d_iterable] builds a table with the
    contents a table made by [__init__] on that list has, held in another
    list: the two tables read, hence validate and render, the same until one
    of the lists is changed. *)
Theorem from_2d_iterable_same_contents_as_init {Any : Type} `{PyStr Any}
    (h : heap Any) (iters : loc) (grid : list (list string)) :
  table_data h (__init__ iters) = Some grid ->
  exists h' self,
    from_2d_iterable h iters = Some (h', self) /\
    table_data h' self = Some grid /\
    table_data h' (__init__ iters) = Some grid /\
    data self <> iters.
Proof.
  unfold table_data at 1. simpl.
  destruct (read_2d h iters) as [input|] eqn:Hinput; [|done]. simpl. intros Hgrid.
  exists (h ++ copied_rows input ++ [Rows (seq (length h) (length input))]),
         {| data := length h + length input |}.
  split; [by apply from_2d_iterable_result|].
  rewrite <- (str_cells_of_strs input grid Hgrid) at 1.
  split; [|split].
  - apply table_data_built. intros i Hi. rewrite lookup_app_r by lia. f_equal. lia.
  - unfold table_data. simpl.
    rewrite (read_2d_agree h _ iters input); [done| |done].
    intros l Hl. by apply lookup_app_l.
  - simpl. unfold read_2d, read_rows in Hinput.
    destruct (h !! iters) as [o|] eqn:Hl; [|done].
    apply lookup_lt_Some in Hl. lia.
Qed.

Lemma from_2d_iterable_same_contents_as_init_witness :
  exists h' self,
    from_2d_iterable constants_heap 3 = Some (h', self) /\
    table_data h' self = Some [["constant"; "value"]; ["pi"; "6.28"]; ["e"; "2.71"]] /\
    table_data h' (__init__ 3) = Some [["constant"; "value"]; ["pi"; "6.28"]; ["e"; "2.71"]] /\
    data self <> 3.
Proof. apply (from_2d_iterable_same_contents_as_init constants_heap 3). reflexivity. Defined.



(** ** Order of the reported rows *)

Lemma filter_enumerate_increasing {A : Type} (P : nat * A -> bool) (l : list A) :
  forall start, StronglySorted lt (map fst (List.filter P (enumerate start l))).
Proof.
  induction l as [|y l IH]; intros start; simpl; [constructor|].
  destruct (P (start, y)); simpl; [|apply IH].
  constructor; [apply IH|].
  apply Forall_forall. intros i Hi.
  apply elem_of_filter_enumerate in Hi as [Hle _]. lia.
Qed.

(** When validation raises [MisalignedRows], its message is the text
    ["expected N cells, violated by rows "] followed by the decimal indices,
    separated by [", "], of a non-empty list of data rows of the grid, in
    increasing order and each once. *)
Theorem misaligned_rows_increasing {A : Type} (data : list (list A)) (msg : string) :
  validate data = Raise (MisalignedRows msg) ->
  exists header rows,
    data !! 0 = Some header /\
    msg = "expected " +:+ pretty (length header) +:+ " cells, violated by rows "
          +:+ String.concat ", " (map pretty rows) /\
    rows <> [] /\
    StronglySorted lt rows /\
    Forall (fun i => 1 <= i < length data) rows /\
    (forall i, i ∈ rows <-> offending data i).
Proof.
  intros Hmsg. destruct data as [|header [|row rows]]; [discriminate..|].
  rewrite validate_two_rows in Hmsg. cbv zeta in Hmsg.
  destruct (is_empty _) eqn:Hemp in Hmsg; [discriminate|]. injection Hmsg as <-.
  exists header, (invalid_rows (length header) (header :: row :: rows)).
  split; [done|]. split; [reflexivity|]. split; [|split; [|split]].
  - intros Hnil. rewrite Hnil in Hemp. discriminate.
  - apply filter_enumerate_increasing.
  - apply Forall_forall. intros i Hi.
    apply elem_of_invalid_rows in Hi as (Hle & r & Hr & _).
    apply lookup_lt_Some in Hr. lia.
  - intros i. rewrite elem_of_invalid_rows. unfold offending. split.
    + intros (Hle & r & Hr & Hne). split; [done|]. exists header, r. done.
    + intros (Hle & hd & r & Hhd & Hr & Hne). split; [done|].
      exists r. split; [done|]. simpl in Hhd. congruence.
Qed.

Lemma misaligned_rows_increasing_witness :
  exists header rows,
    [["a"; "b"]; ["c"]; ["d"; "e"]; []] !! 0 = Some header /\
    "expected 2 cells, violated by rows 1, 3"
    = "expected " +:+ pretty (length header) +:+ " cells, violated by rows "
      +:+ String.concat ", " (map pretty rows) /\
    rows <> [] /\
    StronglySorted lt rows /\
    Forall (fun i => 1 <= i < length [["a"; "b"]; ["c"]; ["d"; "e"]; []]) rows /\
    (forall i, i ∈ rows <-> offending [["a"; "b"]; ["c"]; ["d"; "e"]; []] i).
Proof.
  apply (misaligned_rows_increasing [["a"; "b"]; ["c"]; ["d"; "e"]; []]).
  vm_compute. reflexivity.
Defined.

(** ** Edge cases *)

Lemma validate_same_shape {A B : Type} (data1 : list (list A)) (data2 : list (list B)) :
  map length data1 = map length data2 -> validate data1 = validate data2.
Proof.
  intros Hshape.
  destruct data1 as [|h1 [|r1 rows1]], data2 as [|h2 [|r2 rows2]];
    simpl in Hshape; try discriminate; try reflexivity.
  injection Hshape as Hh Hr Hrows.
  rewrite !validate_two_rows. cbv zeta. rewrite Hh.
  assert (Hinv : invalid_rows (length h2) (h1 :: r1 :: rows1)
                 = invalid_rows (length h2) (h2 :: r2 :: rows2)).
  { unfold invalid_rows. simpl drop.
    apply invalid_rows_enumerate_shape. simpl. by rewrite Hr, Hrows. }
  by rewrite Hinv.
Qed.

(** [from_2d_iterable] checks nothing: it accepts a list of lists of any
    shape, ragged or empty, and the table it builds has the shape of the
    input, so that it passes or fails validation as that shape dictates. *)
Theorem from_2d_iterable_keeps_shape {Any : Type} `{PyStr Any} (h : heap Any) (iters : loc)
    (input : list (list (value Any))) :
  read_2d h iters = Some input ->
  exists h' self grid,
    from_2d_iterable h iters = Some (h', self) /\
    table_data h' self = Some grid /\
    map length grid = map length input /\
    validate grid = validate input.
Proof.
  intros Hinput.
  exists (h ++ copied_rows input ++ [Rows (seq (length h) (length input))]),
         {| data := length h + length input |}, (str_cells input).
  split; [by apply from_2d_iterable_result|].
  split.
  { apply table_data_built. intros i Hi. rewrite lookup_app_r by lia. f_equal. lia. }
  assert (Hshape : map length (str_cells input) = map length input).
  { unfold str_cells. clear. induction input as [|row input IH]; simpl; [done|].
    by rewrite IH, length_map. }
  split; [done|]. by apply validate_same_shape.
Qed.

Lemma from_2d_iterable_keeps_shape_witness :
  exists h' self grid,
    from_2d_iterable [Row [VStr "a"; VObj 1]; Row []; Rows [0; 1; 1]] 2 = Some (h', self) /\
    table_data h' self = Some grid /\
    map length grid = map length [[VStr "a"; VObj 1]; []; []] /\
    validate grid = validate [[VStr "a"; VObj 1]; []; []].
Proof.
  apply (from_2d_iterable_keeps_shape [Row [VStr "a"; VObj 1]; Row []; Rows [0; 1; 1]] 2).
  reflexivity.
Defined.

(** A grid whose rows are all empty, at least two of them, passes validation;
    its text has a header row and a separator row of two bars each, and for
    each data row a line of two bars around two spaces: without a column the
    data rows are wider than the header. *)
Theorem render_no_column (n : nat) :
  validate ([] :: replicate (S n) ([] : list string)) = Ok tt /\
  __str__ ([] :: replicate (S n) []) = Ok (lines ("||" :: "||" :: replicate (S n) "|  |")).
Proof.
  assert (Hrect : Forall (fun row : list string => length row = @length string [])
                    (replicate (S n) [])).
  { apply Forall_forall. intros row Hrow. by apply elem_of_replicate in Hrow as [-> _]. }
  split; [by apply (validate_rect_Ok [] [] (replicate n []))|].
  rewrite render_rect by done.
  change (column_widths ([] :: replicate (S n) [])) with (@nil nat).
  assert (Hrows : forall m, map (data_row []) (replicate m []) = replicate m "|  |").
  { clear. induction m as [|m IH]; [done|]. simpl. by rewrite IH. }
  by rewrite Hrows.
Qed.
